(** * capsule-proxy: cluster-scoped resource matching and the HTTP logger

    A shallow embedding of
    - [internal/modules/clusterscoped/utils.go]
      ([matchPattern], [matchResource], [GetClusterScopeRequirements]) and
    - [internal/webserver/middleware/logger.go] ([LoggerMiddleware]),
    together with the properties the specification states about them.

    Go strings are byte sequences: they are [string]s here (a [string] is a
    list of 8-bit [ascii] characters).  Go's [int] is [Z]; every index the
    code computes is bounded by the length of a string, so no wrap-around
    arises.  A run-time panic (a slice expression out of range) is an
    explicit outcome of the functions that could raise one. *)

From Stdlib Require Import ZArith List Bool Ascii String Lia Permutation.
Import ListNotations.

Open Scope string_scope.
Open Scope Z_scope.

(* ================================================================== *)
(** ** Go's string primitives and the [strings] package *)

Module GoStrings.

(** [len(s)] *)
Definition len (s : string) : Z := Z.of_nat (String.length s).

(** The bytes of [s] from position [n] on, and its first [n] bytes. *)
Fixpoint drop (n : nat) (s : string) : string :=
  match n, s with
  | O, _ => s
  | S _, EmptyString => EmptyString
  | S n', String _ s' => drop n' s'
  end.

Fixpoint take (n : nat) (s : string) : string :=
  match n, s with
  | O, _ => EmptyString
  | S _, EmptyString => EmptyString
  | S n', String c s' => String c (take n' s')
  end.

(** The slice expression [s[i:]]: it panics ([None]) unless
    [0 <= i <= len(s)]. *)
Definition slice_from (s : string) (i : Z) : option string :=
  if (0 <=? i) && (i <=? len s) then Some (drop (Z.to_nat i) s) else None.

(** [strings.HasPrefix(s, prefix)]:
    [len(s) >= len(prefix) && s[:len(prefix)] == prefix]. *)
Definition HasPrefix (s prefix : string) : bool :=
  (len prefix <=? len s) && (take (String.length prefix) s =? prefix)%string.

(** [strings.HasSuffix(s, suffix)]:
    [len(s) >= len(suffix) && s[len(s)-len(suffix):] == suffix]. *)
Definition HasSuffix (s suffix : string) : bool :=
  (len suffix <=? len s) &&
  (drop (String.length s - String.length suffix) s =? suffix)%string.

(** [strings.Index(s, substr)]: the index of the first instance of [substr]
    in [s], or [-1] if [substr] is not present in [s]. *)
Fixpoint Index (s substr : string) : Z :=
  if HasPrefix s substr then 0
  else match s with
       | EmptyString => -1
       | String _ s' =>
           let i := Index s' substr in
           if i <? 0 then -1 else i + 1
       end.

(** [strings.Contains(s, substr)]: [Index(s, substr) >= 0]. *)
Definition Contains (s substr : string) : bool := 0 <=? Index s substr.

(** [strings.Split(s, sep)] for a non-empty separator: cut at the first
    instance of [sep], keep what is before it, and go on after it; what is
    left when [sep] occurs no more is the last element.  Every cut consumes
    at least one byte, so [length s] rounds are enough. *)
Fixpoint genSplit (rounds : nat) (s sep : string) : list string :=
  match rounds with
  | O => [s]
  | S rounds' =>
      let m := Index s sep in
      if m <? 0 then [s]
      else take (Z.to_nat m) s
             :: genSplit rounds' (drop (Z.to_nat (m + len sep)) s) sep
  end.

Definition Split (s sep : string) : list string :=
  genSplit (String.length s) s sep.

End GoStrings.
Import GoStrings.

(* ================================================================== *)
(** ** [matchPattern] *)

(** What one round of the scanning loop of [matchPattern] does. *)
Inductive outcome : Type :=
| Continue (idx : Z)     (* go on with the next part *)
| Return (b : bool)      (* [return b] *)
| Panicked.              (* slice bounds out of range *)

(** The body of [for _, part := range parts], from the cursor [idx]:
[[
    if part == "" { continue }
    i := strings.Index(value[idx:], part)
    if i < 0 { return false }
    idx += i + len(part)
]] *)
Definition scan_step (value : string) (idx : Z) (part : string) : outcome :=
  if (part =? "")%string then Continue idx
  else match slice_from value idx with
       | None => Panicked
       | Some rest =>
           let i := Index rest part in
           if i <? 0 then Return false
           else Continue (idx + (i + len part))
       end.

(** The loop over [parts], followed by the final [return true]. *)
Fixpoint scan (value : string) (parts : list string) (idx : Z) : option bool :=
  match parts with
  | [] => Some true
  | part :: parts' =>
      match scan_step value idx part with
      | Continue idx' => scan value parts' idx'
      | Return b => Some b
      | Panicked => None
      end
  end.

(** [matchPattern(pattern, value)]; [None] is a run-time panic. *)
Definition matchPattern (pattern value : string) : option bool :=
  if (pattern =? "*")%string then Some true
  else if negb (Contains pattern "*") then Some (pattern =? value)%string
  else
    let parts := Split pattern "*" in
    match parts with
    | [p0; p1] =>
        if (p0 =? "")%string then Some (HasSuffix value p1)
        else if (p1 =? "")%string then Some (HasPrefix value p0)
        else scan value parts 0
    | _ => scan value parts 0
    end.

(* ================================================================== *)
(** ** [matchResource] and [GetClusterScopeRequirements] *)

(** [schema.GroupVersionKind].  The functions take it by pointer; the
    coordinate of a request is a value of three strings, and the pointer is
    taken to be non-nil. *)
Record GroupVersionKind : Type := {
  Group : string;
  Version : string;
  Kind : string
}.

(** A Go slice value as a caller sees it: [nil], or a slice with its
    elements.  [range] and [append(s, xs...)] read only the elements of the
    slices of a rule, which are plain lists here. *)
Inductive slice (A : Type) : Type :=
| nil_slice
| mk_slice (elems : list A).
Arguments nil_slice {A}.
Arguments mk_slice {A} elems.

(** [append(s, xs...)]: appending nothing to [nil] leaves [nil]. *)
Definition append {A} (s : slice A) (xs : list A) : slice A :=
  match s with
  | nil_slice => match xs with [] => nil_slice | _ => mk_slice xs end
  | mk_slice l => mk_slice (l ++ xs)
  end.

(** A [for _, x := range xs] loop whose body maps the loop state to a new
    state or panics. *)
Fixpoint range_loop {A S} (body : S -> A -> option S) (xs : list A) (s : S)
  : option S :=
  match xs with
  | [] => Some s
  | x :: xs' =>
      match body s x with
      | Some s' => range_loop body xs' s'
      | None => None
      end
  end.

Section ClusterScoped.

(** Types and functions of the packages the file imports:
    [v1beta1.ClusterResourceOperation], [*metav1.LabelSelector],
    [labels.Selector], [labels.Requirement], [error],
    [metav1.LabelSelectorAsSelector] and [Selector.Requirements]. *)
Variables ClusterResourceOperation LabelSelector Selector Requirement error
  : Type.
Variable LabelSelectorAsSelector : LabelSelector -> Selector + error.
Variable Requirements : Selector -> list Requirement * bool.

(** [v1beta1.ClusterResource] *)
Record ClusterResource : Type := {
  APIGroups : list string;
  Resources : list string;
  Operations : list ClusterResourceOperation;
  Selector_ : LabelSelector
}.

(** Modelled from the spec: [tenant.ProxyTenant], whose declaration is in
    another package; a tenant is its ordered list of cluster-resource
    rules.  The tenants are passed as a slice of pointers, taken to be
    non-nil. *)
Record ProxyTenant : Type := {
  ClusterResources : list ClusterResource
}.

(** The first loop of [matchResource]:
[[
    for _, r := range cr.Resources {
        if r == "*" || r == gvk.Kind { kindMatch = true; break }
    }
]] *)
Fixpoint kindMatch (gvk : GroupVersionKind) (resources : list string) : bool :=
  match resources with
  | [] => false
  | r :: resources' =>
      if (r =? "*")%string || (r =? Kind gvk)%string then true
      else kindMatch gvk resources'
  end.

(** The comparison target of one entry of [cr.APIGroups]. *)
Definition target (gvk : GroupVersionKind) (apiGroup : string) : string :=
  if Contains apiGroup "/" then Group gvk ++ "/" ++ Version gvk
  else Group gvk.

(** The second loop of [matchResource], with its final [return false]. *)
Fixpoint groupMatch (gvk : GroupVersionKind) (apiGroups : list string)
  : option bool :=
  match apiGroups with
  | [] => Some false
  | apiGroup :: apiGroups' =>
      if (apiGroup =? "*")%string then Some true
      else match matchPattern apiGroup (target gvk apiGroup) with
           | None => None
           | Some true => Some true
           | Some false => groupMatch gvk apiGroups'
           end
  end.

Definition matchResource (gvk : GroupVersionKind) (cr : ClusterResource)
  : option bool :=
  if negb (kindMatch gvk (Resources cr)) then Some false
  else groupMatch gvk (APIGroups cr).

(** The two results of [GetClusterScopeRequirements], as they are built. *)
Definition acc : Type :=
  (slice ClusterResourceOperation * slice Requirement)%type.

(** The body of the inner loop, for one rule [cr]. *)
Definition rule_body (gvk : GroupVersionKind) (st : acc) (cr : ClusterResource)
  : option acc :=
  let (operations, requirements) := st in
  match matchResource gvk cr with
  | None => None
  | Some false => Some (operations, requirements)
  | Some true =>
      let operations := append operations (Operations cr) in
      match LabelSelectorAsSelector (Selector_ cr) with
      | inr _ => Some (operations, requirements)            (* continue *)
      | inl selector =>
          let (reqs, selectable) := Requirements selector in
          if negb selectable then Some (operations, requirements)
          else Some (operations, append requirements reqs)
      end
  end.

(** The body of the outer loop, for one tenant [pt]. *)
Definition tenant_body (gvk : GroupVersionKind) (st : acc) (pt : ProxyTenant)
  : option acc :=
  range_loop (rule_body gvk) (ClusterResources pt) st.

Definition GetClusterScopeRequirements
  (gvk : GroupVersionKind) (proxyTenants : list ProxyTenant) : option acc :=
  range_loop (tenant_body gvk) proxyTenants (mk_slice [], mk_slice []).

(** What one rule adds to the two results: its operations if it matches,
    and the requirements of its selector if, moreover, the selector
    converts and is selectable. *)
Definition rule_operations (gvk : GroupVersionKind) (cr : ClusterResource)
  : list ClusterResourceOperation :=
  match matchResource gvk cr with
  | Some true => Operations cr
  | _ => []
  end.

Definition rule_requirements (gvk : GroupVersionKind) (cr : ClusterResource)
  : list Requirement :=
  match matchResource gvk cr with
  | Some true =>
      match LabelSelectorAsSelector (Selector_ cr) with
      | inr _ => []
      | inl selector =>
          if snd (Requirements selector) then fst (Requirements selector)
          else []
      end
  | _ => []
  end.

Definition tenant_operations (gvk : GroupVersionKind) (pt : ProxyTenant)
  : list ClusterResourceOperation :=
  flat_map (rule_operations gvk) (ClusterResources pt).

Definition tenant_requirements (gvk : GroupVersionKind) (pt : ProxyTenant)
  : list Requirement :=
  flat_map (rule_requirements gvk) (ClusterResources pt).

(** The selector of [cr] fails conversion, or converts to a selector that
    is not selectable. *)
Definition selector_rejected (cr : ClusterResource) : Prop :=
  (exists err, LabelSelectorAsSelector (Selector_ cr) = inr err) \/
  (exists selector reqs,
     LabelSelectorAsSelector (Selector_ cr) = inl selector /\
     Requirements selector = (reqs, false)).

End ClusterScoped.

Arguments APIGroups {ClusterResourceOperation LabelSelector} c.
Arguments Resources {ClusterResourceOperation LabelSelector} c.
Arguments Operations {ClusterResourceOperation LabelSelector} c.
Arguments Selector_ {ClusterResourceOperation LabelSelector} c.
Arguments ClusterResources {ClusterResourceOperation LabelSelector} p.
Arguments Build_ClusterResource {ClusterResourceOperation LabelSelector}.
Arguments Build_ProxyTenant {ClusterResourceOperation LabelSelector}.
Arguments matchResource {ClusterResourceOperation LabelSelector} gvk cr.
Arguments rule_body {ClusterResourceOperation LabelSelector Selector
  Requirement error} LabelSelectorAsSelector Requirements gvk st cr.
Arguments tenant_body {ClusterResourceOperation LabelSelector Selector
  Requirement error} LabelSelectorAsSelector Requirements gvk st pt.
Arguments GetClusterScopeRequirements {ClusterResourceOperation LabelSelector
  Selector Requirement error} LabelSelectorAsSelector Requirements gvk
  proxyTenants.
Arguments rule_operations {ClusterResourceOperation LabelSelector} gvk cr.
Arguments rule_requirements {ClusterResourceOperation LabelSelector Selector
  Requirement error} LabelSelectorAsSelector Requirements gvk cr.
Arguments tenant_operations {ClusterResourceOperation LabelSelector} gvk pt.
Arguments tenant_requirements {ClusterResourceOperation LabelSelector Selector
  Requirement error} LabelSelectorAsSelector Requirements gvk pt.
Arguments selector_rejected {ClusterResourceOperation LabelSelector Selector
  Requirement error} LabelSelectorAsSelector Requirements cr.

(* ================================================================== *)
(** ** [LoggerMiddleware] *)

Module Middleware.

Section Types.

(** [http.ResponseWriter], [*url.URL], [http.Header], [*http.Cookie] and
    [url.Values], and what [net/http] and [net/url] compute from a request. *)
Context {ResponseWriter URL Header Cookie Values : Type}.

(** The fields of [http.Request] the handler reads. *)
Record Request : Type := {
  Method : string;
  URL_ : URL;
  Host : string;
  Header_ : Header;
  RemoteAddr : string;
  RequestURI : string;
  Proto : string;
  ContentLength : Z;
  TransferEncoding : list string
}.

(** A value passed to the logger (Go's [any]). *)
Inductive any : Type :=
| AString (s : string)
| AStrings (l : list string)
| AInt64 (n : Z)
| AHeader (h : Header)
| ACookies (l : list Cookie)
| AValues (v : Values).

(** The methods of [url.URL] and [http.Request] the handler calls; they
    read their receiver only. *)
Class NetHTTP : Type := {
  URL_String : URL -> string;
  URL_Query : URL -> Values;
  Cookies : Request -> list Cookie
}.

(** [logr.Logger] over a world [W] that logging acts on: [V] gives the
    logger of a verbosity level, [Info] logs a message with its keys and
    values. *)
Class Logr (Logger W : Type) : Type := {
  V : Logger -> Z -> Logger;
  Info : Logger -> string -> list any -> W -> W
}.

(** [http.Handler]: [ServeHTTP(w, r)] acts on the world. *)
Definition Handler (W : Type) : Type := ResponseWriter -> Request -> W -> W.

Definition ServeHTTP {W} (h : Handler W) (w : ResponseWriter) (r : Request)
  : W -> W := h w r.

(** The keys and values of the log call, in the order they are written. *)
Definition details {N : NetHTTP} (r : Request) : list any :=
  [ AString "method"; AString (Method r);
    AString "url"; AString (URL_String (URL_ r));
    AString "host"; AString (Host r);
    AString "headers"; AHeader (Header_ r);
    AString "remoteAddr"; AString (RemoteAddr r);
    AString "requestURI"; AString (RequestURI r);
    AString "proto"; AString (Proto r);
    AString "contentLength"; AInt64 (ContentLength r);
    AString "transferEncoding"; AStrings (TransferEncoding r);
    AString "cookies"; ACookies (Cookies r);
    AString "query"; AValues (URL_Query (URL_ r)) ].

(** [LoggerMiddleware(log)]: a [mux.MiddlewareFunc], from the next handler
    to the handler that logs and then serves with [next]. *)
Definition LoggerMiddleware {Logger W} {N : NetHTTP} {L : Logr Logger W}
  (log : Logger) : Handler W -> Handler W :=
  fun next => fun w r world =>
    let world := Info (V log 10) "HTTP details" (details r) world in
    ServeHTTP next w r world.

(** *** Observing the calls of a handler

    A world paired with the journal of the calls made to the handler and
    to the logger under observation. *)
Inductive call (Logger : Type) : Type :=
| Served (w : ResponseWriter) (r : Request)
| Logged (l : Logger) (msg : string) (kvs : list any).
Arguments Served {Logger} w r.
Arguments Logged {Logger} l msg kvs.

Definition observed (Logger W : Type) : Type := (W * list (call Logger))%type.

(** [next], noting each call of its [ServeHTTP] with the arguments it got. *)
Definition spy {Logger W} (next : Handler W) : Handler (observed Logger W) :=
  fun w r world =>
    (ServeHTTP next w r (fst world), (snd world ++ [Served w r])%list).

(** A logger, noting each call of its [Info] with the logger it is called
    on and the arguments it got. *)
Definition spy_logr {Logger W} (L : Logr Logger W)
  : Logr Logger (observed Logger W) := {|
  V := @V _ _ L;
  Info := fun l msg kvs world =>
    (@Info _ _ L l msg kvs (fst world),
     (snd world ++ [Logged l msg kvs])%list)
|}.

(** How often [ServeHTTP] was called, in a journal. *)
Definition served_count {Logger} (j : list (call Logger)) : nat :=
  List.length (filter (fun c => match c with Served _ _ => true | _ => false end) j).

End Types.

Arguments Request : clear implicits.
Arguments any : clear implicits.
Arguments NetHTTP : clear implicits.
Arguments Logr : clear implicits.
Arguments Handler : clear implicits.
Arguments call : clear implicits.
Arguments observed : clear implicits.
Arguments Served {ResponseWriter URL Header Cookie Values Logger} w r.
Arguments Logged {ResponseWriter URL Header Cookie Values Logger} l msg kvs.

End Middleware.

(* ================================================================== *)
(** ** The words of the specification *)

(** [o] is a returned boolean, and it is [true] exactly when [P] holds. *)
Definition decides (o : option bool) (P : Prop) : Prop :=
  exists r, o = Some r /\ (r = true <-> P).

Definition starts_with (value prefix : string) : Prop :=
  exists z, value = prefix ++ z.

Definition ends_with (value suffix : string) : Prop :=
  exists x, value = x ++ suffix.

(** *** The greedy scan *)

(** [part] stands in [value] at position [pos]. *)
Definition occurs_at (value part : string) (pos : nat) : bool :=
  (substring pos (String.length part) value =? part)%string.

(** The first of the positions [pos], [pos + 1], ... ([tries] of them)
    where [part] stands in [value]. *)
Fixpoint search (value part : string) (pos tries : nat) : option nat :=
  match tries with
  | O => None
  | S tries' =>
      if occurs_at value part pos then Some pos
      else search value part (S pos) tries'
  end.

(** The first occurrence of [part] in [value] at or after [cursor]. *)
Definition first_occurrence (value part : string) (cursor : nat)
  : option nat :=
  search value part cursor (S (String.length value) - cursor).

(** For each literal in order: find its first occurrence at or after the
    cursor; fail if there is none, otherwise move the cursor past it. *)
Fixpoint greedy (value : string) (literals : list string) (cursor : nat)
  : bool :=
  match literals with
  | [] => true
  | part :: literals' =>
      match first_occurrence value part cursor with
      | None => false
      | Some pos => greedy value literals' (pos + String.length part)
      end
  end.

(** Split the pattern on [*], skip the empty parts, and scan from 0. *)
Definition greedy_scan (pattern value : string) : bool :=
  greedy value
         (filter (fun part => negb (part =? "")%string) (Split pattern "*"))
         0.

(** *** Placements, and patterns of stars *)

(** The [parts] stand in [value] in their order, one after the other and
    without overlap. *)
Fixpoint embeds (parts : list string) (value : string) : Prop :=
  match parts with
  | [] => True
  | part :: parts' =>
      exists x rest, value = x ++ part ++ rest /\ embeds parts' rest
  end.

(** Every byte of [pattern] is a [*] (the empty pattern included). *)
Fixpoint only_stars (pattern : string) : bool :=
  match pattern with
  | EmptyString => true
  | String c pattern' => Ascii.eqb c "*" && only_stars pattern'
  end.

(** All parts are empty. *)
Definition all_empty (parts : list string) : bool :=
  forallb (fun part => (part =? "")%string) parts.

(** The bytes of the literal parts, together. *)
Definition total_len (parts : list string) : Z :=
  fold_right (fun part n => len part + n) 0 parts.

(** *** Rules that apply *)

(** [matchResource] returned true. *)
Definition rule_matches {ClusterResourceOperation LabelSelector : Type}
  (gvk : GroupVersionKind)
  (cr : @ClusterResource ClusterResourceOperation LabelSelector) : bool :=
  match matchResource gvk cr with
  | Some true => true
  | _ => false
  end.

(** A tenant with the rules that apply only, and all tenants as one. *)
Definition matching_rules {ClusterResourceOperation LabelSelector : Type}
  (gvk : GroupVersionKind)
  (pt : @ProxyTenant ClusterResourceOperation LabelSelector)
  : @ProxyTenant ClusterResourceOperation LabelSelector :=
  Build_ProxyTenant (filter (rule_matches gvk) (ClusterResources pt)).

Definition merged {ClusterResourceOperation LabelSelector : Type}
  (tenants : list (@ProxyTenant ClusterResourceOperation LabelSelector))
  : @ProxyTenant ClusterResourceOperation LabelSelector :=
  Build_ProxyTenant (flat_map ClusterResources tenants).

(* ================================================================== *)
(** ** Test data *)

(** The table of [TestMatchPattern]. *)
Definition matchPattern_tests : list (string * string * bool) :=
  [ ("*", "", true); ("*", "anything", true);
    ("apps", "apps", true); ("apps", "core", false);
    ("", "", true); ("", "x", false);
    ("*v1", "apps/v1", true); ("*v1", "apps/v2", false);
    ("apps*", "apps/v1", true); ("apps*", "batch/v1", false);
    ("a*b", "acb", true); ("a*b", "a---b", true);
    ("a*b", "a---c", false); ("a*b", "c---b", false);
    ("a*b*c", "aXXbYYc", true); ("a**c", "abc", true);
    ("**", "anything", true); ("**suffix", "prefixsuffix", true);
    ("prefix**", "prefixsuffix", true);
    ("a*b*c", "a1b2c3", true); ("a*b*c", "a1c2b3", false);
    ("a*", "", false); ("*", "x", true); ("***", "x", true);
    ("***", "", true);
    ("a.b", "a.b", true); ("a.b", "acb", false);
    ("apps/v1", "apps/v1", true); ("apps/v1", "apps/v2", false) ].

(** The table of [TestMatchResource] (operations and selector play no part
    in [matchResource]). *)
Definition rule (resources apiGroups : list string)
  : @ClusterResource unit unit :=
  Build_ClusterResource apiGroups resources [] tt.

Definition gvkCoreV1NS := {| Group := ""; Version := "v1"; Kind := "Namespace" |}.
Definition gvkAppsV1Deploy :=
  {| Group := "apps"; Version := "v1"; Kind := "Deployment" |}.
Definition gvkAppsV1SS :=
  {| Group := "apps"; Version := "v1"; Kind := "StatefulSet" |}.
Definition gvkBatchV1Job := {| Group := "batch"; Version := "v1"; Kind := "Job" |}.
Definition gvkAppsV2Deploy :=
  {| Group := "apps"; Version := "v2"; Kind := "Deployment" |}.

Definition matchResource_tests
  : list (GroupVersionKind * @ClusterResource unit unit * bool) :=
  [ (gvkAppsV1Deploy, rule ["*"] ["*"], true);
    (gvkAppsV1Deploy, rule ["Deployment"] ["*"], true);
    (gvkAppsV1Deploy, rule ["StatefulSet"] ["apps"], false);
    (gvkAppsV1SS, rule ["Deployment"; "StatefulSet"] ["apps"], true);
    (gvkAppsV1Deploy, rule [] ["*"], false);
    (gvkBatchV1Job, rule ["Job"] ["*"], true);
    (gvkAppsV1Deploy, rule ["Deployment"] ["apps"], true);
    (gvkAppsV1Deploy, rule ["Deployment"] ["batch"], false);
    (gvkCoreV1NS, rule ["Namespace"] [""], true);
    (gvkAppsV1Deploy, rule ["Deployment"] [""], false);
    (gvkBatchV1Job, rule ["Job"] ["apps"; "batch"], true);
    (gvkAppsV1Deploy, rule ["Deployment"] [], false);
    (gvkAppsV1Deploy, rule ["Deployment"] ["apps/v1"], true);
    (gvkAppsV1Deploy, rule ["Deployment"] ["apps/v2"], false);
    (gvkAppsV1Deploy, rule ["Deployment"] ["apps/*"], true);
    (gvkAppsV1Deploy, rule ["Deployment"] ["*/v1"], true);
    (gvkAppsV2Deploy, rule ["Deployment"] ["*/v1"], false);
    (gvkAppsV1Deploy, rule ["Deployment"] ["a*s/v1"], true);
    (gvkAppsV1Deploy, rule ["Deployment"] ["batch/*"; "apps/v1"], true);
    (gvkAppsV1Deploy, rule ["Deployment"] ["apps"], true);
    (gvkAppsV1Deploy, rule ["Job"] ["apps"], false) ].

(** A stand-in for the label-selector package: a selector is malformed,
    selects nothing, or asks for one label value. *)
Inductive test_selector : Type :=
| Malformed
| Nothing
| MatchLabel (key val : string).

Definition test_convert (s : test_selector) : test_selector + string :=
  match s with
  | Malformed => inr "invalid label selector"
  | _ => inl s
  end.

Definition test_requirements (s : test_selector)
  : list (string * string) * bool :=
  match s with
  | MatchLabel key val => ([(key, val)], true)
  | _ => ([], false)
  end.

Definition wildcard_rule (operations : list string) (s : test_selector)
  : @ClusterResource string test_selector :=
  Build_ClusterResource ["*"] ["*"] operations s.

(** Two tenants: the rule of the first lists with the selector [app=foo],
    the rule of the second watches with a malformed selector. *)
Definition tenantA : @ProxyTenant string test_selector :=
  Build_ProxyTenant [wildcard_rule ["List"] (MatchLabel "app" "foo")].

Definition tenantB : @ProxyTenant string test_selector :=
  Build_ProxyTenant [wildcard_rule ["Watch"] Malformed].

(** A request, with URLs as their text, no cookies and no query, and a
    logger that is switched off: its [Info] leaves the world as it is. *)
Definition test_net : Middleware.NetHTTP string (list string) unit unit := {|
  Middleware.URL_String := fun url => url;
  Middleware.URL_Query := fun _ => tt;
  Middleware.Cookies := fun _ => []
|}.

Definition silent_logr : Middleware.Logr (list string) unit unit Z (list string) := {|
  Middleware.V := fun log level => log + level;
  Middleware.Info := fun _ _ _ world => world
|}.

Definition test_request : Middleware.Request string (list string) := {|
  Middleware.Method := "GET";
  Middleware.URL_ := "/api/v1/namespaces";
  Middleware.Host := "capsule-proxy";
  Middleware.Header_ := [];
  Middleware.RemoteAddr := "10.0.0.1:4242";
  Middleware.RequestURI := "/api/v1/namespaces";
  Middleware.Proto := "HTTP/1.1";
  Middleware.ContentLength := 0;
  Middleware.TransferEncoding := []
|}.

(** A handler that notes the method of the requests it serves. *)
Definition test_handler
  : Middleware.Handler unit string (list string) (list string) :=
  fun _ r world => Middleware.Method r :: world.

(* ================================================================== *)
(** * Properties *)

(** ** The tests of the repository *)

(** X22: [TestMatchPattern] passes: on each case of its table
    [matchPattern] returns, and returns what the case wants. *)
Example matchPattern_tests_pass :
  forallb (fun t => match t with
                    | (p, v, want) =>
                        match matchPattern p v with
                        | Some got => Bool.eqb got want
                        | None => false
                        end
                    end) matchPattern_tests = true.
Proof. vm_compute. reflexivity. Qed.

(** X23: [TestMatchResource] passes: on each case of its table
    [matchResource] returns, and returns what the case wants. *)
Example matchResource_tests_pass :
  forallb (fun t => match t with
                    | (gvk, cr, want) =>
                        match matchResource gvk cr with
                        | Some got => Bool.eqb got want
                        | None => false
                        end
                    end) matchResource_tests = true.
Proof. vm_compute. reflexivity. Qed.

(** ** Strings *)

Section StringFacts.

Implicit Types s t u x z sub : string.

Lemma app_assoc_s s t u : (s ++ t) ++ u = s ++ t ++ u.
Proof. induction s as [|c s IH]; simpl; [reflexivity | now rewrite IH]. Qed.

Lemma app_empty_r s : s ++ "" = s.
Proof. induction s as [|c s IH]; simpl; [reflexivity | now rewrite IH]. Qed.

Lemma length_app_s s t :
  String.length (s ++ t) = (String.length s + String.length t)%nat.
Proof. induction s as [|c s IH]; simpl; [reflexivity | now rewrite IH]. Qed.

Lemma len_app s t : len (s ++ t) = len s + len t.
Proof. unfold len. rewrite length_app_s. lia. Qed.

Lemma len_nonneg s : 0 <= len s.
Proof. unfold len. lia. Qed.

Lemma len_cons c s : len (String c s) = len s + 1.
Proof. unfold len. simpl String.length. lia. Qed.

Lemma length_zero_empty s : (String.length s <= 0)%nat -> s = "".
Proof. destruct s; simpl; [reflexivity | lia]. Qed.

Lemma drop_empty n : drop n "" = "".
Proof. destruct n; reflexivity. Qed.

Lemma take_drop n s : take n s ++ drop n s = s.
Proof.
  revert s. induction n as [|n IH]; intros [|c s]; simpl; try reflexivity.
  now rewrite IH.
Qed.

Lemma length_take n s : String.length (take n s) = Nat.min n (String.length s).
Proof.
  revert s. induction n as [|n IH]; intros [|c s]; simpl; try reflexivity.
  now rewrite IH.
Qed.

Lemma length_drop n s : String.length (drop n s) = (String.length s - n)%nat.
Proof.
  revert s. induction n as [|n IH]; intros [|c s]; simpl; try reflexivity.
  apply IH.
Qed.

Lemma take_app_length s t : take (String.length s) (s ++ t) = s.
Proof. induction s as [|c s IH]; simpl; [now destruct t | now rewrite IH]. Qed.

Lemma drop_app_length s t : drop (String.length s) (s ++ t) = t.
Proof. induction s as [|c s IH]; simpl; [reflexivity | exact IH]. Qed.

Lemma drop_app_le n s t :
  (n <= String.length s)%nat -> drop n (s ++ t) = drop n s ++ t.
Proof.
  revert s. induction n as [|n IH]; intros [|c s] Hn; simpl in *;
    try reflexivity; try lia.
  apply IH. lia.
Qed.

Lemma drop_drop n m s : drop n (drop m s) = drop (m + n) s.
Proof.
  revert s. induction m as [|m IH]; intros s; simpl.
  - reflexivity.
  - destruct s as [|c s]; [apply drop_empty | apply IH].
Qed.

Lemma drop_all s : drop (String.length s) s = "".
Proof. induction s as [|c s IH]; simpl; [reflexivity | exact IH]. Qed.

(** [strings.HasPrefix] and [strings.HasSuffix] say what their names say. *)
Lemma HasPrefix_take s sub :
  HasPrefix s sub = (take (String.length sub) s =? sub)%string.
Proof.
  unfold HasPrefix.
  destruct (String.eqb_spec (take (String.length sub) s) sub) as [E|E].
  - rewrite andb_true_r. apply Z.leb_le. unfold len.
    rewrite <- E at 1. rewrite length_take. lia.
  - apply andb_false_r.
Qed.

Lemma HasPrefix_iff s sub : HasPrefix s sub = true <-> exists z, s = sub ++ z.
Proof.
  rewrite HasPrefix_take, String.eqb_eq. split.
  - intros E. exists (drop (String.length sub) s).
    rewrite <- E at 1. symmetry. apply take_drop.
  - intros [z ->]. apply take_app_length.
Qed.

Lemma HasSuffix_iff s sub : HasSuffix s sub = true <-> exists x, s = x ++ sub.
Proof.
  unfold HasSuffix. rewrite andb_true_iff, Z.leb_le, String.eqb_eq. split.
  - intros [_ E]. exists (take (String.length s - String.length sub) s).
    rewrite <- E at 2. symmetry. apply take_drop.
  - intros [x ->]. unfold len. rewrite length_app_s. split; [lia|].
    replace (String.length x + String.length sub - String.length sub)%nat
      with (String.length x) by lia.
    apply drop_app_length.
Qed.

Lemma HasPrefix_empty s : HasPrefix s "" = true.
Proof. apply HasPrefix_iff. now exists s. Qed.

(** [strings.Index]: its range, that it is an instance, and the first one. *)
Lemma Index_range s sub :
  Index s sub = -1 \/ (0 <= Index s sub /\ Index s sub + len sub <= len s).
Proof.
  induction s as [|c s IH]; simpl.
  - destruct (HasPrefix "" sub) eqn:P; [right | now left].
    apply HasPrefix_iff in P as [z E]. rewrite E, len_app.
    pose proof (len_nonneg z). lia.
  - destruct (HasPrefix (String c s) sub) eqn:P.
    + right. apply HasPrefix_iff in P as [z E]. rewrite E, len_app.
      pose proof (len_nonneg z). lia.
    + destruct (Z.ltb_spec (Index s sub) 0); [now left | right].
      rewrite len_cons. lia.
Qed.

Lemma Index_instance s sub :
  0 <= Index s sub ->
  HasPrefix (drop (Z.to_nat (Index s sub)) s) sub = true.
Proof.
  induction s as [|c s IH]; simpl.
  - destruct (HasPrefix "" sub) eqn:P; [intros _; exact P | lia].
  - destruct (HasPrefix (String c s) sub) eqn:P; [intros _; exact P |].
    destruct (Z.ltb_spec (Index s sub) 0) as [L|L]; [lia | intros _].
    replace (Z.to_nat (Index s sub + 1)) with (S (Z.to_nat (Index s sub)))
      by lia.
    simpl. now apply IH.
Qed.

Lemma Index_first s sub n :
  HasPrefix (drop n s) sub = true -> 0 <= Index s sub <= Z.of_nat n.
Proof.
  revert n. induction s as [|c s IH]; intros n P; simpl.
  - rewrite drop_empty in P. rewrite P. lia.
  - destruct (HasPrefix (String c s) sub) eqn:Q; [lia|].
    destruct n as [|n]; simpl in P; [congruence|].
    apply IH in P. destruct (Z.ltb_spec (Index s sub) 0); lia.
Qed.

Lemma Index_split s sub :
  0 <= Index s sub ->
  s = take (Z.to_nat (Index s sub)) s ++ sub
        ++ drop (Z.to_nat (Index s sub + len sub)) s.
Proof.
  intros H. pose proof (Index_instance s sub H) as P.
  apply HasPrefix_iff in P as [z E].
  rewrite <- (take_drop (Z.to_nat (Index s sub)) s) at 1. f_equal.
  rewrite E at 1. f_equal.
  replace (Z.to_nat (Index s sub + len sub))
    with (Z.to_nat (Index s sub) + String.length sub)%nat
    by (unfold len; lia).
  rewrite <- drop_drop, E. symmetry. apply drop_app_length.
Qed.

Lemma Index_app s sub x z : s = x ++ sub ++ z -> 0 <= Index s sub <= len x.
Proof.
  intros ->. apply Index_first. rewrite drop_app_length.
  apply HasPrefix_iff. now exists z.
Qed.

Lemma Index_absent s sub : Index s sub < 0 -> forall x z, s <> x ++ sub ++ z.
Proof. intros H x z E. apply Index_app in E. lia. Qed.

Lemma Contains_iff s sub :
  Contains s sub = true <-> exists x z, s = x ++ sub ++ z.
Proof.
  unfold Contains. rewrite Z.leb_le. split.
  - intros H. eexists _, _. now apply Index_split.
  - intros (x & z & E). now apply Index_app in E.
Qed.

End StringFacts.

(** ** [strings.Split] *)

Section SplitFacts.

Variable sep : string.
Hypothesis sep_nonempty : sep <> "".

Lemma len_sep_pos : 1 <= len sep.
Proof. unfold len. destruct sep; [congruence | simpl; lia]. Qed.

Lemma Index_empty_sep : Index "" sep = -1.
Proof.
  simpl. destruct (HasPrefix "" sep) eqn:P; [|reflexivity].
  apply HasPrefix_iff in P as [z E]. destruct sep; [congruence | discriminate].
Qed.

(** The number of rounds does not matter once it covers the string. *)
Lemma genSplit_rounds n m s :
  (String.length s <= n)%nat -> (String.length s <= m)%nat ->
  genSplit n s sep = genSplit m s sep.
Proof.
  revert m s. induction n as [|n IH]; intros [|m] s Hn Hm; simpl.
  - reflexivity.
  - apply length_zero_empty in Hn. subst s. now rewrite Index_empty_sep.
  - apply length_zero_empty in Hm. subst s. now rewrite Index_empty_sep.
  - destruct (Z.ltb_spec (Index s sep) 0) as [L|L]; [reflexivity|].
    f_equal. pose proof len_sep_pos.
    apply IH; rewrite length_drop; lia.
Qed.

Lemma Split_absent s : Index s sep < 0 -> Split s sep = [s].
Proof.
  intros H. unfold Split. destruct (String.length s); simpl; [reflexivity|].
  now apply Z.ltb_lt in H as ->.
Qed.

Lemma Split_cut s :
  0 <= Index s sep ->
  Split s sep = take (Z.to_nat (Index s sep)) s
                  :: Split (drop (Z.to_nat (Index s sep + len sep)) s) sep.
Proof.
  intros H. unfold Split. destruct (String.length s) as [|n] eqn:E.
  - apply Nat.eq_le_incl, length_zero_empty in E. subst s.
    rewrite Index_empty_sep in H. lia.
  - simpl. pose proof H as H'. apply Z.ltb_ge in H' as ->. f_equal.
    pose proof len_sep_pos.
    apply genSplit_rounds; rewrite ?length_drop; lia.
Qed.

(** A string without the separator is split into itself alone; one split
    into a single part has no separator. *)
Lemma Split_single s : Contains s sep = false -> Split s sep = [s].
Proof.
  unfold Contains. intros H. apply Z.leb_gt in H. now apply Split_absent.
Qed.

Lemma Split_two_Contains s a b : Split s sep = [a; b] -> Contains s sep = true.
Proof.
  intros E. destruct (Contains s sep) eqn:C; [reflexivity|].
  rewrite (Split_single s C) in E. discriminate.
Qed.

End SplitFacts.

(** Splitting at a one-byte separator. *)
Section SplitByte.

Variable c : ascii.

Lemma HasPrefix_byte d s : HasPrefix (String d s) (String c "") = Ascii.eqb d c.
Proof. rewrite HasPrefix_take. simpl. now destruct (Ascii.eqb d c). Qed.

Lemma Index_cons d s :
  Index (String d s) (String c "") =
  if Ascii.eqb d c then 0
  else if Index s (String c "") <? 0 then -1 else Index s (String c "") + 1.
Proof. cbn [Index]. now rewrite HasPrefix_byte. Qed.

Lemma Index_before x z :
  Index x (String c "") < 0 ->
  Index (x ++ String c z) (String c "") = len x.
Proof.
  induction x as [|d x IH]; intros H; simpl String.append.
  - now rewrite Index_cons, Ascii.eqb_refl.
  - rewrite Index_cons in *. destruct (Ascii.eqb d c); [lia|].
    destruct (Z.ltb_spec (Index x (String c "")) 0) as [L|L]; [|lia].
    rewrite (IH L), len_cons. pose proof (len_nonneg x).
    now destruct (Z.ltb_spec (len x) 0); [lia|].
Qed.

Lemma Split_app x z :
  Contains x (String c "") = false ->
  Split (x ++ String c z) (String c "") = x :: Split z (String c "").
Proof.
  intros C. unfold Contains in C. apply Z.leb_gt in C.
  pose proof (Index_before x z C) as E. pose proof (len_nonneg x).
  rewrite Split_cut by (try discriminate; lia). rewrite E.
  unfold len at 1. rewrite Nat2Z.id, take_app_length. f_equal. f_equal.
  replace (Z.to_nat (len x + len (String c "")))
    with (String.length x + 1)%nat by (unfold len; simpl; lia).
  rewrite <- drop_drop, drop_app_length. reflexivity.
Qed.

(** ["prefix*"] and ["*suffix"]. *)
Lemma Split_trailing x :
  Contains x (String c "") = false ->
  Split (x ++ String c "") (String c "") = [x; ""].
Proof. intros C. now rewrite Split_app. Qed.

Lemma Split_leading z :
  Contains z (String c "") = false ->
  Split (String c z) (String c "") = [""; z].
Proof.
  intros C. change (String c z) with ("" ++ String c z).
  rewrite Split_app by reflexivity. f_equal.
  apply Split_single; exact C.
Qed.

End SplitByte.

(** ** The scanning loop of [matchPattern] *)

Section Scan.

Variable value : string.

Lemma slice_from_in_bounds idx :
  0 <= idx <= len value ->
  slice_from value idx = Some (drop (Z.to_nat idx) value).
Proof.
  intros [L U]. unfold slice_from.
  apply Z.leb_le in L as ->. now apply Z.leb_le in U as ->.
Qed.

Lemma len_drop_in_bounds idx :
  0 <= idx <= len value -> len (drop (Z.to_nat idx) value) = len value - idx.
Proof. intros H. unfold len in *. rewrite length_drop. lia. Qed.

(** One round, from a cursor within [value]. *)
Lemma scan_step_cases idx part :
  0 <= idx <= len value ->
  let i := Index (drop (Z.to_nat idx) value) part in
  scan_step value idx part =
    if (part =? "")%string then Continue idx
    else if i <? 0 then Return false
    else Continue (idx + (i + len part)).
Proof.
  intros H i. unfold scan_step. now rewrite slice_from_in_bounds.
Qed.

Lemma scan_step_in_bounds idx part :
  0 <= idx <= len value ->
  scan_step value idx part <> Panicked /\
  forall idx', scan_step value idx part = Continue idx' ->
               idx <= idx' <= len value.
Proof.
  intros H. rewrite scan_step_cases by exact H.
  pose proof (Index_range (drop (Z.to_nat idx) value) part) as R.
  rewrite len_drop_in_bounds in R by exact H.
  pose proof (len_nonneg part).
  destruct (part =? "")%string.
  - split; [discriminate|]. intros idx' [= <-]. lia.
  - destruct (Z.ltb_spec (Index (drop (Z.to_nat idx) value) part) 0).
    + split; discriminate.
    + split; [discriminate|]. intros idx' [= <-]. lia.
Qed.

Lemma scan_total parts : forall idx,
  0 <= idx <= len value -> exists b, scan value parts idx = Some b.
Proof.
  induction parts as [|part parts IH]; intros idx H; simpl.
  - now exists true.
  - destruct (scan_step_in_bounds idx part H) as [NP B].
    destruct (scan_step value idx part) as [idx'|b|].
    + apply IH. specialize (B idx' eq_refl). lia.
    + now exists b.
    + congruence.
Qed.

End Scan.

Lemma matchPattern_total pattern value :
  exists b, matchPattern pattern value = Some b.
Proof.
  pose proof (len_nonneg value) as L.
  assert (S : forall parts, exists b, scan value parts 0 = Some b)
    by (intros; apply scan_total; lia).
  unfold matchPattern.
  destruct (pattern =? "*")%string; [now eexists|].
  destruct (negb (Contains pattern "*")); [now eexists|].
  destruct (Split pattern "*") as [|p0 [|p1 [|p2 ps]]]; try apply S.
  destruct (p0 =? "")%string; [now eexists|].
  destruct (p1 =? "")%string; [now eexists | apply S].
Qed.

(** A pattern that [strings.Split] cuts in two: what [matchPattern] does. *)
Lemma matchPattern_two_parts pattern a b value :
  Split pattern "*" = [a; b] ->
  matchPattern pattern value =
    if (a =? "")%string then Some (HasSuffix value b)
    else if (b =? "")%string then Some (HasPrefix value a)
    else scan value [a; b] 0.
Proof.
  intros E. unfold matchPattern.
  destruct (String.eqb_spec pattern "*") as [->|N].
  - vm_compute in E. injection E as <- <-. simpl. rewrite (proj2 (HasSuffix_iff value "")); [reflexivity|].
    exists value. symmetry. apply app_empty_r.
  - assert (C : Contains pattern "*" = true)
      by (eapply Split_two_Contains; exact E).
    rewrite C. simpl. now rewrite E.
Qed.

Lemma decides_Some b P : (b = true <-> P) -> decides (Some b) P.
Proof. intros H. now exists b. Qed.

(** C8: a pattern that splits on [*] into exactly two parts with an empty
    trailing part is a prefix test, and with an empty leading part a suffix
    test; so for every literal [p] without [*] and every [value],
    [matchPattern (p ++ "*") value] is true iff [value] starts with [p], and
    [matchPattern ("*" ++ p) value] is true iff [value] ends with [p]. *)
Theorem matchPattern_prefix_suffix (value : string) :
  (forall pattern a b,
     Split pattern "*" = [a; b] ->
     (b = "" -> decides (matchPattern pattern value) (starts_with value a)) /\
     (a = "" -> decides (matchPattern pattern value) (ends_with value b))) /\
  (forall p,
     Contains p "*" = false ->
     decides (matchPattern (p ++ "*") value) (starts_with value p) /\
     decides (matchPattern ("*" ++ p) value) (ends_with value p)).
Proof.
  assert (G : forall pattern a b,
     Split pattern "*" = [a; b] ->
     (b = "" -> decides (matchPattern pattern value) (starts_with value a)) /\
     (a = "" -> decides (matchPattern pattern value) (ends_with value b))).
  { intros pattern a b E. rewrite (matchPattern_two_parts _ _ _ _ E).
    split; intros ->.
    - destruct (String.eqb_spec a "") as [->|N]; apply decides_Some.
      + rewrite HasSuffix_iff. split; intros _.
        * now exists value.
        * exists value. symmetry. apply app_empty_r.
      + apply HasPrefix_iff.
    - apply decides_Some, HasSuffix_iff. }
  split; [exact G|]. intros p C. split.
  - apply (G _ p ""); [|reflexivity]. now apply Split_trailing.
  - apply (G _ "" p); [|reflexivity]. now apply Split_leading.
Qed.

Lemma matchPattern_prefix_suffix_witness :
  decides (matchPattern "prefix*" "prefixsuffix")
          (starts_with "prefixsuffix" "prefix") /\
  decides (matchPattern "*suffix" "prefixsuffix")
          (ends_with "prefixsuffix" "suffix").
Proof.
  split.
  - apply (proj2 (matchPattern_prefix_suffix "prefixsuffix") "prefix").
    reflexivity.
  - apply (proj2 (matchPattern_prefix_suffix "prefixsuffix") "suffix").
    reflexivity.
Defined.

(** The two rounds of the scan for a pattern of two non-empty parts. *)
Lemma scan_two_parts value a b :
  a <> "" -> b <> "" ->
  scan value [a; b] 0 =
    Some ((0 <=? Index value a) &&
          (0 <=? Index (drop (Z.to_nat (Index value a + len a)) value) b)).
Proof.
  intros Na Nb. pose proof (len_nonneg value) as L. pose proof (len_nonneg a).
  apply String.eqb_neq in Na, Nb.
  cbn [scan]. rewrite scan_step_cases by lia. rewrite Na. simpl drop.
  pose proof (Index_range value a) as R.
  destruct (Z.ltb_spec (Index value a) 0) as [I|I].
  - destruct (Z.leb_spec 0 (Index value a)); [lia | reflexivity].
  - destruct (Z.leb_spec 0 (Index value a)); [|lia].
    rewrite scan_step_cases by lia. rewrite Nb. simpl andb.
    replace (0 + (Index value a + len a)) with (Index value a + len a) by lia.
    destruct (Z.ltb_spec
                (Index (drop (Z.to_nat (Index value a + len a)) value) b) 0);
      destruct (Z.leb_spec
                0 (Index (drop (Z.to_nat (Index value a + len a)) value) b));
      try lia; reflexivity.
Qed.

(** C9: a pattern whose split on [*] is two non-empty parts [a] and [b]
    anchors neither: [matchPattern] returns true exactly when [a] occurs
    somewhere in [value] and [b] occurs after it.  So
    [matchPattern "a*b" "xaybz"] is true, although ["xaybz"] neither starts
    with ["a"] nor ends with ["b"]. *)
Theorem matchPattern_interior_star_unanchored :
  (forall pattern a b value,
     Split pattern "*" = [a; b] -> a <> "" -> b <> "" ->
     decides (matchPattern pattern value)
             (exists x y z, value = x ++ a ++ y ++ b ++ z)) /\
  matchPattern "a*b" "xaybz" = Some true /\
  ~ starts_with "xaybz" "a" /\ ~ ends_with "xaybz" "b".
Proof.
  split; [|split; [reflexivity | split]].
  - intros pattern a b value E Na Nb.
    rewrite (matchPattern_two_parts _ _ _ _ E).
    destruct (String.eqb_spec a "") as [?|_]; [contradiction|].
    destruct (String.eqb_spec b "") as [?|_]; [contradiction|].
    rewrite scan_two_parts by assumption. apply decides_Some.
    rewrite andb_true_iff, !Z.leb_le. split.
    + intros [Ia Ib]. pose proof (Index_split value a Ia) as Sa.
      pose proof (Index_split _ b Ib) as Sb.
      eexists _, _, _. rewrite <- Sb. exact Sa.
    + intros (x & y & z & V).
      pose proof (Index_app value a x _ V) as Ia. split; [lia|].
      pose proof (Index_range value a) as R.
      assert (P : exists w, drop (Z.to_nat (Index value a + len a)) value
                            = w ++ y ++ b ++ z).
      { remember (Z.to_nat (Index value a + len a)) as n eqn:En.
        assert (n <= String.length (x ++ a))%nat
          by (rewrite length_app_s; unfold len in *; lia).
        exists (drop n (x ++ a)).
        rewrite V, <- app_assoc_s. now apply drop_app_le. }
      destruct P as [w P].
      rewrite <- app_assoc_s in P. now apply Index_app in P.
  - intros [z E]. discriminate.
  - intros [x E].
    assert (S : HasSuffix "xaybz" "b" = true)
      by (apply HasSuffix_iff; now exists x).
    discriminate.
Qed.

Lemma matchPattern_interior_star_unanchored_witness :
  decides (matchPattern "a*b" "xaybz")
          (exists x y z, "xaybz" = x ++ "a" ++ y ++ "b" ++ z).
Proof.
  apply (proj1 matchPattern_interior_star_unanchored "a*b" "a" "b" "xaybz").
  - reflexivity.
  - discriminate.
  - discriminate.
Defined.

(** ** The greedy scan *)

Section Greedy.

Variable value : string.

Lemma substring_take_drop n m s : substring n m s = take m (drop n s).
Proof.
  revert s. induction n as [|n IHn]; intros s.
  - simpl drop. revert s. induction m as [|m IHm]; intros [|c s]; simpl;
      try reflexivity.
    now rewrite IHm.
  - destruct s as [|c s]; simpl; [now destruct m | apply IHn].
Qed.

Lemma occurs_at_HasPrefix part pos :
  occurs_at value part pos = HasPrefix (drop pos value) part.
Proof. unfold occurs_at. now rewrite substring_take_drop, HasPrefix_take. Qed.

Lemma occurs_at_iff part pos :
  occurs_at value part pos = true /\ (pos <= String.length value)%nat <->
  exists x z, value = x ++ part ++ z /\ String.length x = pos.
Proof.
  rewrite occurs_at_HasPrefix, HasPrefix_iff. split.
  - intros [[z E] L]. exists (take pos value), z. split.
    + rewrite <- E. symmetry. apply take_drop.
    + rewrite length_take. lia.
  - intros (x & z & -> & <-). rewrite drop_app_length. split.
    + now exists z.
    + rewrite length_app_s. lia.
Qed.

(** [search] returns the least position it tries where [part] stands. *)
Lemma search_Some part tries : forall pos p,
  search value part pos tries = Some p ->
  (pos <= p < pos + tries)%nat /\ occurs_at value part p = true /\
  forall q, (pos <= q < p)%nat -> occurs_at value part q = false.
Proof.
  induction tries as [|k IH]; intros pos p; simpl; [discriminate|].
  destruct (occurs_at value part pos) eqn:O.
  - intros [= <-]. repeat split; try lia. exact O.
  - intros H. apply IH in H as (B & Op & Least). repeat split; try lia.
    + exact Op.
    + intros q Hq. destruct (Nat.eq_dec q pos) as [->|N]; [exact O|].
      apply Least. lia.
Qed.

Lemma search_None part tries : forall pos,
  search value part pos tries = None ->
  forall q, (pos <= q < pos + tries)%nat -> occurs_at value part q = false.
Proof.
  induction tries as [|k IH]; intros pos; simpl; [lia|].
  destruct (occurs_at value part pos) eqn:O; [discriminate|].
  intros H q Hq. destruct (Nat.eq_dec q pos) as [->|N]; [exact O|].
  apply (IH _ H). lia.
Qed.

(** [first_occurrence] is the least position from the cursor on, within
    [value], where [part] stands; it is [None] when there is none. *)
Lemma first_occurrence_least part cursor p :
  first_occurrence value part cursor = Some p ->
  (cursor <= p <= String.length value)%nat /\
  occurs_at value part p = true /\
  forall q, (cursor <= q < p)%nat -> occurs_at value part q = false.
Proof.
  unfold first_occurrence. intros H.
  apply search_Some in H as (B & O & Least). repeat split; try lia; assumption.
Qed.

Lemma first_occurrence_none part cursor :
  first_occurrence value part cursor = None ->
  forall q, (cursor <= q <= String.length value)%nat ->
            occurs_at value part q = false.
Proof.
  unfold first_occurrence. intros H q Hq.
  apply (search_None _ _ _ H). lia.
Qed.

Lemma drop_cons pos :
  (pos < String.length value)%nat ->
  exists c, drop pos value = String c (drop (S pos) value).
Proof.
  generalize value. induction pos as [|n IH]; intros [|c s] L; simpl in *;
    try lia.
  - now exists c.
  - apply IH. lia.
Qed.

(** [strings.Index] on the rest of [value] finds the first occurrence at or
    after the cursor. *)
Lemma search_Index part k : forall pos,
  (pos + k = String.length value)%nat ->
  search value part pos (S k) =
    let i := Index (drop pos value) part in
    if i <? 0 then None else Some (pos + Z.to_nat i)%nat.
Proof.
  induction k as [|k IH]; intros pos E.
  - simpl search. rewrite occurs_at_HasPrefix.
    replace pos with (String.length value) by lia. rewrite drop_all.
    simpl. destruct (HasPrefix "" part); simpl; [f_equal; lia | reflexivity].
  - destruct (drop_cons pos ltac:(lia)) as [c D].
    change (search value part pos (S (S k)))
      with (if occurs_at value part pos then Some pos
            else search value part (S pos) (S k)).
    rewrite occurs_at_HasPrefix, IH by lia. rewrite D. cbn [Index].
    destruct (HasPrefix (String c (drop (S pos) value)) part).
    + simpl. f_equal. lia.
    + cbv zeta.
      pose proof (Index_range (drop (S pos) value) part) as R.
      destruct (Z.ltb_spec (Index (drop (S pos) value) part) 0) as [L|L].
      * reflexivity.
      * destruct (Z.ltb_spec (Index (drop (S pos) value) part + 1) 0);
          [lia|]. f_equal. lia.
Qed.

Lemma first_occurrence_Index part cursor :
  (cursor <= String.length value)%nat ->
  first_occurrence value part cursor =
    let i := Index (drop cursor value) part in
    if i <? 0 then None else Some (cursor + Z.to_nat i)%nat.
Proof.
  intros L. unfold first_occurrence.
  replace (S (String.length value) - cursor)%nat
    with (S (String.length value - cursor)) by lia.
  apply search_Index. lia.
Qed.

(** The loop of [matchPattern] is the greedy scan over the non-empty
    parts. *)
Lemma scan_greedy parts : forall cursor,
  (cursor <= String.length value)%nat ->
  scan value parts (Z.of_nat cursor) =
    Some (greedy value
            (filter (fun part => negb (part =? "")%string) parts) cursor).
Proof.
  induction parts as [|part parts IH]; intros cursor L; [reflexivity|].
  cbn [scan filter]. rewrite scan_step_cases by (unfold len; lia).
  rewrite Nat2Z.id.
  destruct (part =? "")%string; simpl negb; cbv iota; [now apply IH|].
  cbn [greedy]. rewrite first_occurrence_Index by exact L. cbv zeta.
  pose proof (Index_range (drop cursor value) part) as R.
  assert (len (drop cursor value) = len value - Z.of_nat cursor) as D
    by (unfold len; rewrite length_drop; lia).
  destruct (Z.ltb_spec (Index (drop cursor value) part) 0) as [I|I];
    [reflexivity|].
  replace (Z.of_nat cursor + (Index (drop cursor value) part + len part))
    with (Z.of_nat (cursor + Z.to_nat (Index (drop cursor value) part)
                    + String.length part)) by (unfold len; lia).
  apply IH. unfold len in *. lia.
Qed.

End Greedy.

(** C1: for a pattern that contains a [*], is not ["*"], and is not split
    into two parts of which the first or the last is empty,
    [matchPattern pattern value] returns the result of the greedy
    left-to-right scan over the non-empty parts of the pattern, each found
    at its first occurrence at or after the cursor; nothing ties the last
    part to the end of [value]. *)
Theorem matchPattern_greedy_scan (pattern value : string) :
  Contains pattern "*" = true ->
  pattern <> "*" ->
  (forall a b, Split pattern "*" = [a; b] -> a <> "" /\ b <> "") ->
  matchPattern pattern value = Some (greedy_scan pattern value).
Proof.
  intros C N Two. unfold matchPattern, greedy_scan.
  apply String.eqb_neq in N. rewrite N, C. simpl negb. cbv iota zeta.
  pose proof (scan_greedy value (Split pattern "*") O ltac:(lia)) as G.
  simpl Z.of_nat in G.
  destruct (Split pattern "*") as [|p0 [|p1 [|p2 ps]]] eqn:E; try exact G.
  destruct (Two p0 p1 eq_refl) as [N0 N1].
  apply String.eqb_neq in N0, N1. rewrite N0, N1. exact G.
Qed.

(** The last literal need not end the value, and the order of the
    literals matters. *)
Example greedy_scan_unanchored : greedy_scan "a*b*c" "a1b2c3" = true.
Proof. reflexivity. Qed.

Example greedy_scan_ordered : greedy_scan "a*b*c" "a1c2b3" = false.
Proof. reflexivity. Qed.

Lemma matchPattern_greedy_scan_witness :
  matchPattern "a*b*c" "a1b2c3" = Some (greedy_scan "a*b*c" "a1b2c3").
Proof.
  apply matchPattern_greedy_scan.
  - reflexivity.
  - discriminate.
  - intros a b E. vm_compute in E. discriminate.
Defined.

(* ================================================================== *)
(** ** [matchResource] *)

Section MatchResourceFacts.

Context {ClusterResourceOperation LabelSelector : Type}.
Implicit Types cr : @ClusterResource ClusterResourceOperation LabelSelector.

Variable gvk : GroupVersionKind.

Lemma kindMatch_iff resources :
  kindMatch gvk resources = true <->
  In "*" resources \/ In (Kind gvk) resources.
Proof.
  induction resources as [|r rs IH]; simpl.
  - split; [discriminate | tauto].
  - destruct (String.eqb_spec r "*") as [->|N1]; simpl; [tauto|].
    destruct (String.eqb_spec r (Kind gvk)) as [->|N2]; [tauto|].
    rewrite IH. split; [tauto|].
    intros [[E|H]|[E|H]]; try tauto; congruence.
Qed.

Lemma groupMatch_decides apiGroups :
  decides (groupMatch gvk apiGroups)
          (exists g, In g apiGroups /\
                     (g = "*" \/ matchPattern g (target gvk g) = Some true)).
Proof.
  induction apiGroups as [|g gs IH]; simpl.
  - apply decides_Some. split; [discriminate | now intros (g & [] & _)].
  - destruct (String.eqb_spec g "*") as [->|N].
    + apply decides_Some. split; [|reflexivity]. intros _.
      exists "*". split; [now left | now left].
    + destruct (matchPattern_total g (target gvk g)) as [[|] M]; rewrite M.
      * apply decides_Some. split; [|reflexivity]. intros _.
        exists g. split; [now left | now right].
      * destruct IH as (r & -> & IH). apply decides_Some. rewrite IH.
        split.
        -- intros (g' & I & H). exists g'. split; [now right | exact H].
        -- intros (g' & [<-|I] & H).
           ++ destruct H as [H|H]; congruence.
           ++ now exists g'.
Qed.

Lemma matchResource_decides cr :
  decides (matchResource gvk cr)
          ((In "*" (Resources cr) \/ In (Kind gvk) (Resources cr)) /\
           exists g, In g (APIGroups cr) /\
                     (g = "*" \/ matchPattern g (target gvk g) = Some true)).
Proof.
  unfold matchResource.
  destruct (kindMatch gvk (Resources cr)) eqn:K; simpl.
  - apply kindMatch_iff in K.
    destruct (groupMatch_decides (APIGroups cr)) as (r & -> & H).
    apply decides_Some. rewrite H. tauto.
  - apply decides_Some. split; [discriminate|]. intros [H _].
    apply kindMatch_iff in H. congruence.
Qed.

Lemma matchResource_total cr :
  exists b, matchResource gvk cr = Some b.
Proof. destruct (matchResource_decides cr) as (r & H & _). now exists r. Qed.

(** C2: [matchResource gvk cr] returns true iff (a) [cr.Resources] contains
    the literal ["*"] or an element equal to [gvk.Kind] (membership of
    strings, no pattern), and (b) some entry of [cr.APIGroups] is ["*"] or
    matches its target by [matchPattern], the target being
    [gvk.Group + "/" + gvk.Version] for an entry that contains ["/"] and
    [gvk.Group] for one that does not. *)
Theorem matchResource_iff cr :
  decides (matchResource gvk cr)
    ((In "*" (Resources cr) \/ In (Kind gvk) (Resources cr)) /\
     exists g, In g (APIGroups cr) /\
       (g = "*" \/
        (Contains g "/" = true /\
         matchPattern g (Group gvk ++ "/" ++ Version gvk) = Some true) \/
        (Contains g "/" = false /\
         matchPattern g (Group gvk) = Some true))).
Proof.
  destruct (matchResource_decides cr) as (r & E & H).
  exists r. split; [exact E|]. rewrite H.
  apply and_iff_compat_l. split; intros (g & I & M); exists g; (split; [exact I|]).
  - destruct M as [M|M]; [now left | right]. unfold target in M.
    destruct (Contains g "/"); [left | right]; now split.
  - destruct M as [M|[[C M]|[C M]]]; [now left | right | right];
      unfold target; now rewrite C.
Qed.

(** C5: [matchResource] returns false for a rule whose [Resources] is
    empty, and for a rule whose [APIGroups] is empty whatever its
    [Resources] are. *)
Theorem matchResource_empty_lists
  (apiGroups resources : list string)
  (operations : list ClusterResourceOperation) (selector : LabelSelector) :
  matchResource gvk (Build_ClusterResource apiGroups [] operations selector)
    = Some false /\
  matchResource gvk (Build_ClusterResource [] resources operations selector)
    = Some false.
Proof.
  split; [reflexivity|]. unfold matchResource. simpl.
  now destruct (kindMatch gvk resources).
Qed.

End MatchResourceFacts.

(* ================================================================== *)
(** ** [GetClusterScopeRequirements] *)

Section AggregateFacts.

Context {ClusterResourceOperation LabelSelector Selector Requirement error
         : Type}.
Variable LabelSelectorAsSelector : LabelSelector -> Selector + error.
Variable Requirements : Selector -> list Requirement * bool.
Variable gvk : GroupVersionKind.

Implicit Types cr : @ClusterResource ClusterResourceOperation LabelSelector.
Implicit Types pt : @ProxyTenant ClusterResourceOperation LabelSelector.
Implicit Types rules
  : list (@ClusterResource ClusterResourceOperation LabelSelector).
Implicit Types tenants before after A B
  : list (@ProxyTenant ClusterResourceOperation LabelSelector).

Lemma rule_body_adds ops reqs cr :
  rule_body LabelSelectorAsSelector Requirements gvk
            (mk_slice ops, mk_slice reqs) cr =
  Some (mk_slice (ops ++ rule_operations gvk cr),
        mk_slice (reqs ++ rule_requirements LabelSelectorAsSelector Requirements gvk cr)).
Proof.
  unfold rule_body, rule_operations, rule_requirements.
  destruct (matchResource_total gvk cr) as [[|] ->]; simpl.
  - destruct (LabelSelectorAsSelector (Selector_ cr)) as [selector|err].
    + destruct (Requirements selector) as [rs [|]]; simpl;
        now rewrite ?app_nil_r.
    + now rewrite app_nil_r.
  - now rewrite !app_nil_r.
Qed.

Lemma rules_loop_adds rules : forall ops reqs,
  range_loop (rule_body LabelSelectorAsSelector Requirements gvk) rules
             (mk_slice ops, mk_slice reqs) =
  Some (mk_slice (ops ++ flat_map (rule_operations gvk) rules),
        mk_slice (reqs ++ flat_map (rule_requirements LabelSelectorAsSelector Requirements gvk) rules)).
Proof.
  induction rules as [|cr rules IH]; intros ops reqs; cbn [range_loop flat_map].
  - now rewrite !app_nil_r.
  - rewrite rule_body_adds, IH, <- !app_assoc. reflexivity.
Qed.

Lemma tenants_loop_adds tenants : forall ops reqs,
  range_loop (tenant_body LabelSelectorAsSelector Requirements gvk) tenants
             (mk_slice ops, mk_slice reqs) =
  Some (mk_slice (ops ++ flat_map (tenant_operations gvk) tenants),
        mk_slice (reqs ++ flat_map (tenant_requirements LabelSelectorAsSelector Requirements gvk) tenants)).
Proof.
  induction tenants as [|pt tenants IH]; intros ops reqs;
    cbn [range_loop flat_map].
  - now rewrite !app_nil_r.
  - unfold tenant_body at 1. rewrite rules_loop_adds, IH, <- !app_assoc.
    reflexivity.
Qed.

(** The two results are the contributions of all rules, in the order of
    the traversal: tenants outside, rules inside. *)
Lemma aggregate_flat tenants :
  GetClusterScopeRequirements LabelSelectorAsSelector Requirements gvk tenants =
  Some (mk_slice (flat_map (tenant_operations gvk) tenants),
        mk_slice (flat_map (tenant_requirements LabelSelectorAsSelector Requirements gvk) tenants)).
Proof.
  unfold GetClusterScopeRequirements.
  now rewrite tenants_loop_adds.
Qed.

Lemma flat_map_nil {X Y} (f : X -> list Y) (l : list X) :
  (forall a, In a l -> f a = []) -> flat_map f l = [].
Proof.
  induction l as [|a l IH]; intros H; simpl; [reflexivity|].
  rewrite (H a) by now left. apply IH. intros b I. apply H. now right.
Qed.

Lemma rule_operations_matched cr :
  matchResource gvk cr = Some true -> rule_operations gvk cr = Operations cr.
Proof. unfold rule_operations. now intros ->. Qed.

Lemma rule_requirements_rejected cr :
  selector_rejected LabelSelectorAsSelector Requirements cr -> rule_requirements LabelSelectorAsSelector Requirements gvk cr = [].
Proof.
  unfold rule_requirements.
  intros [[err E]|(selector & reqs & E & R)]; rewrite E;
    destruct (matchResource gvk cr) as [[|]|]; try reflexivity.
  now rewrite R.
Qed.

(** C3: a matched rule [cr] whose selector fails conversion, or converts
    to a selector that is not selectable, adds its operations to the
    operations, at its place in the traversal, and nothing to the
    requirements; the call returns its two results all the same, and the
    rules and tenants before and after [cr] contribute as they do without
    it. *)
Theorem aggregate_selector_rejected
  before after rules1 rules2 cr :
  matchResource gvk cr = Some true ->
  selector_rejected LabelSelectorAsSelector Requirements cr ->
  exists ops1 reqs1 ops2 reqs2,
    GetClusterScopeRequirements LabelSelectorAsSelector Requirements gvk
      (before ++ [Build_ProxyTenant rules1])
      = Some (mk_slice ops1, mk_slice reqs1) /\
    GetClusterScopeRequirements LabelSelectorAsSelector Requirements gvk
      (Build_ProxyTenant rules2 :: after)
      = Some (mk_slice ops2, mk_slice reqs2) /\
    GetClusterScopeRequirements LabelSelectorAsSelector Requirements gvk
      (before ++ Build_ProxyTenant (rules1 ++ cr :: rules2) :: after)
      = Some (mk_slice (ops1 ++ Operations cr ++ ops2),
              mk_slice (reqs1 ++ reqs2)).
Proof.
  intros M R. rewrite !aggregate_flat. do 4 eexists.
  split; [reflexivity|]. split; [reflexivity|].
  rewrite !flat_map_app. cbn [flat_map].
  unfold tenant_operations, tenant_requirements. cbn [ClusterResources].
  rewrite !flat_map_app. cbn [flat_map].
  rewrite (rule_operations_matched cr M), (rule_requirements_rejected cr R).
  rewrite !app_nil_r, <- !app_assoc. reflexivity.
Qed.

(** C4: the results for [A ++ B] are, component by component, the results
    for [A] followed by the results for [B]; nothing is removed, reordered
    or combined across tenants. *)
Theorem aggregate_app A B :
  exists opsA reqsA opsB reqsB,
    GetClusterScopeRequirements LabelSelectorAsSelector Requirements gvk A
      = Some (mk_slice opsA, mk_slice reqsA) /\
    GetClusterScopeRequirements LabelSelectorAsSelector Requirements gvk B
      = Some (mk_slice opsB, mk_slice reqsB) /\
    GetClusterScopeRequirements LabelSelectorAsSelector Requirements gvk
      (A ++ B)
      = Some (mk_slice (opsA ++ opsB), mk_slice (reqsA ++ reqsB)).
Proof.
  rewrite !aggregate_flat. do 4 eexists.
  split; [reflexivity|]. split; [reflexivity|].
  now rewrite !flat_map_app.
Qed.

(** C6: for no tenants, and whenever no rule matches, both results are
    empty; and for every input both results are slices that are there
    (empty perhaps), never [nil] and never a panic. *)
Theorem aggregate_empty :
  @GetClusterScopeRequirements ClusterResourceOperation _ _ _ _
    LabelSelectorAsSelector Requirements gvk []
    = Some (mk_slice [], mk_slice []) /\
  (forall tenants,
     (forall pt cr, In pt tenants -> In cr (ClusterResources pt) ->
                    matchResource gvk cr = Some false) ->
     GetClusterScopeRequirements LabelSelectorAsSelector Requirements gvk
       tenants = Some (mk_slice [], mk_slice [])) /\
  (forall tenants,
     exists ops reqs,
       GetClusterScopeRequirements LabelSelectorAsSelector Requirements gvk
         tenants = Some (mk_slice ops, mk_slice reqs)).
Proof.
  split; [reflexivity|]. split.
  - intros tenants H. rewrite aggregate_flat.
    rewrite !flat_map_nil; [reflexivity | |]; intros pt I;
      apply flat_map_nil; intros cr J;
      [unfold rule_requirements | unfold rule_operations];
      now rewrite (H pt cr I J).
  - intros tenants. rewrite aggregate_flat. now eexists _, _.
Qed.


End AggregateFacts.

(* ================================================================== *)
(** ** [LoggerMiddleware] *)

Section LoggerFacts.

Import Middleware.

Context {ResponseWriter URL Header Cookie Values Logger W : Type}.
Context {net : NetHTTP URL Header Cookie Values}.
Context {logr : Logr Header Cookie Values Logger W}.

(** C10: the handler [LoggerMiddleware log next] acts on the world by one
    [Info] call on [log.V(10)], with the message and the details of the
    request, and then by [next.ServeHTTP(w, r)] with the writer and the
    request it was called with, and by nothing else: observed, it calls
    the logger once, then [next] once, with these arguments. *)
Theorem LoggerMiddleware_logs_then_serves
  (log : Logger) (next : Handler ResponseWriter URL Header W)
  (w : ResponseWriter) (r : Request URL Header) (world : W)
  (journal : list (call ResponseWriter URL Header Cookie Values Logger)) :
  let observed :=
    LoggerMiddleware (L := spy_logr logr) log (spy next) w r (world, journal)
  in
  LoggerMiddleware log next w r world =
    ServeHTTP next w r
      (Info (V log 10) "HTTP details" (details r) world) /\
  fst observed = LoggerMiddleware log next w r world /\
  snd observed =
    (journal ++ [Logged (V log 10) "HTTP details" (details r);
                 Served w r])%list /\
  served_count (snd observed) = S (served_count journal).
Proof.
  cbv zeta. split; [reflexivity|]. split; [reflexivity|]. split.
  - unfold LoggerMiddleware, spy, ServeHTTP. simpl.
    now rewrite <- app_assoc.
  - unfold LoggerMiddleware, spy, ServeHTTP, served_count. simpl.
    rewrite !filter_app, !length_app. simpl. lia.
Qed.

End LoggerFacts.

(* ================================================================== *)
(** ** The theorems at the test data *)

(** Scenario 5 of the specification. *)
Example aggregate_two_tenants :
  GetClusterScopeRequirements test_convert test_requirements gvkAppsV1Deploy
    [tenantA; tenantB]
  = Some (mk_slice ["List"; "Watch"], mk_slice [("app", "foo")]).
Proof. reflexivity. Qed.

Lemma aggregate_selector_rejected_witness :
  exists ops1 reqs1 ops2 reqs2,
    GetClusterScopeRequirements test_convert test_requirements
      gvkAppsV1Deploy ([tenantA] ++ [Build_ProxyTenant []])
      = Some (mk_slice ops1, mk_slice reqs1) /\
    GetClusterScopeRequirements test_convert test_requirements
      gvkAppsV1Deploy [Build_ProxyTenant []]
      = Some (mk_slice ops2, mk_slice reqs2) /\
    GetClusterScopeRequirements test_convert test_requirements
      gvkAppsV1Deploy
      ([tenantA]
         ++ [Build_ProxyTenant ([] ++ [wildcard_rule ["Watch"] Malformed])])
      = Some (mk_slice (ops1 ++ ["Watch"] ++ ops2), mk_slice (reqs1 ++ reqs2)).
Proof.
  apply (aggregate_selector_rejected test_convert test_requirements
           gvkAppsV1Deploy [tenantA] [] [] []
           (wildcard_rule ["Watch"] Malformed)).
  - reflexivity.
  - left. exists "invalid label selector". reflexivity.
Defined.

Lemma aggregate_empty_witness :
  GetClusterScopeRequirements test_convert test_requirements gvkBatchV1Job
    [Build_ProxyTenant
       [Build_ClusterResource ["apps"] ["Deployment"] ["List"] Nothing]]
  = Some (mk_slice [], mk_slice []).
Proof.
  apply (proj1 (proj2 (aggregate_empty test_convert test_requirements
                         gvkBatchV1Job))).
  intros pt cr [<-|[]] [<-|[]]. reflexivity.
Defined.


(* ================================================================== *)
(** * Further properties of the code *)

(** ** [matchPattern]: placements of the parts *)

Section Placements.

Lemma embeds_prepend parts : forall x value,
  embeds parts value -> embeds parts (x ++ value).
Proof.
  destruct parts as [|part parts]; intros x value; simpl; [trivial|].
  intros (y & rest & -> & E). exists (x ++ y), rest.
  split; [symmetry; apply app_assoc_s | exact E].
Qed.

Lemma embeds_extend parts : forall value z,
  embeds parts value -> embeds parts (value ++ z).
Proof.
  induction parts as [|part parts IH]; intros value z; simpl; [trivial|].
  intros (y & rest & -> & E). exists y, (rest ++ z). split.
  - now rewrite !app_assoc_s.
  - now apply IH.
Qed.

Lemma embeds_skip_empty parts value :
  embeds ("" :: parts) value <-> embeds parts value.
Proof.
  simpl. split.
  - intros (x & rest & -> & E). now apply embeds_prepend.
  - intros E. now exists "", value.
Qed.

Lemma embeds_total_len parts : forall value,
  embeds parts value -> total_len parts <= len value.
Proof.
  induction parts as [|part parts IH]; intros value; simpl.
  - intros _. apply len_nonneg.
  - intros (x & rest & -> & E). apply IH in E.
    rewrite !len_app. pose proof (len_nonneg x). lia.
Qed.

(** The loop finds the parts exactly when they can be placed at all. *)
Lemma scan_embeds value parts : forall idx,
  0 <= idx <= len value ->
  decides (scan value parts idx) (embeds parts (drop (Z.to_nat idx) value)).
Proof.
  induction parts as [|part parts IH]; intros idx H.
  - apply decides_Some. simpl. tauto.
  - cbn [scan]. rewrite scan_step_cases by exact H.
    destruct (String.eqb_spec part "") as [->|N].
    + destruct (IH idx H) as (r & -> & R). exists r. split; [reflexivity|].
      now rewrite embeds_skip_empty.
    + set (s := drop (Z.to_nat idx) value) in *.
      pose proof (Index_range s part) as R.
      assert (Ls : len s = len value - idx)
        by (apply len_drop_in_bounds; exact H).
      pose proof (len_nonneg part) as Lp.
      destruct (Z.ltb_spec (Index s part) 0) as [I|I].
      * apply decides_Some. split; [discriminate|].
        intros (x & rest & E & _). now apply Index_absent in E.
      * assert (D : drop (Z.to_nat (idx + (Index s part + len part))) value
                    = drop (Z.to_nat (Index s part + len part)) s).
        { unfold s. rewrite drop_drop. fold s. f_equal. lia. }
        assert (B' : 0 <= idx + (Index s part + len part) <= len value)
          by (destruct R; lia).
        destruct (IH _ B') as (r & -> & Hr).
        exists r. split; [reflexivity|]. rewrite Hr, D. cbn [embeds]. split.
        -- intros E. eexists _, _. split; [apply Index_split; exact I | exact E].
        -- intros (x & rest & E & Er).
           pose proof (Index_app s part x rest E) as B.
           remember (Z.to_nat (Index s part + len part)) as n eqn:En.
           assert (n <= String.length (x ++ part))%nat
             by (rewrite length_app_s; unfold len in *; lia).
           rewrite E, <- app_assoc_s, drop_app_le by assumption.
           now apply embeds_prepend.
Qed.

Lemma scan_from_start value parts :
  decides (scan value parts 0) (embeds parts value).
Proof.
  pose proof (len_nonneg value).
  apply (scan_embeds value parts 0). lia.
Qed.

(** A pattern with a [*] that is neither ["*"] nor an anchored two-part
    pattern goes to the loop. *)
Lemma matchPattern_general pattern value :
  Contains pattern "*" = true ->
  pattern <> "*" ->
  (forall a b, Split pattern "*" = [a; b] -> a <> "" /\ b <> "") ->
  matchPattern pattern value = scan value (Split pattern "*") 0.
Proof.
  intros C N Two. unfold matchPattern.
  apply String.eqb_neq in N. rewrite N, C. simpl negb. cbv iota zeta.
  destruct (Split pattern "*") as [|p0 [|p1 [|p2 ps]]] eqn:E; try reflexivity.
  destruct (Two p0 p1 eq_refl) as [N0 N1].
  apply String.eqb_neq in N0, N1. now rewrite N0, N1.
Qed.

End Placements.

(** ** [matchPattern]: the parts of a pattern *)

Section PatternParts.

Lemma genSplit_embeds rounds : forall s, embeds (genSplit rounds s "*") s.
Proof.
  induction rounds as [|n IH]; intros s; cbn [genSplit].
  - exists "", "". split; [now rewrite app_empty_r | exact I].
  - destruct (Z.ltb_spec (Index s "*") 0) as [L|L].
    + exists "", "". split; [now rewrite app_empty_r | exact I].
    + cbn [embeds]. exists "", ("*" ++ drop (Z.to_nat (Index s "*" + len "*")) s).
      split.
      * exact (Index_split s "*" L).
      * apply embeds_prepend, IH.
Qed.

Lemma Split_embeds pattern : embeds (Split pattern "*") pattern.
Proof. apply genSplit_embeds. Qed.

Lemma Split_nonempty s sep : Split s sep <> [].
Proof.
  unfold Split. destruct (String.length s); simpl; [discriminate|].
  destruct (Index s sep <? 0); discriminate.
Qed.

(** A pattern cut in two is its two parts around one [*]. *)
Lemma Split_two_join pattern a b :
  Split pattern "*" = [a; b] -> pattern = a ++ "*" ++ b.
Proof.
  intros E.
  assert (C : Contains pattern "*" = true) by (eapply Split_two_Contains; exact E).
  unfold Contains in C. apply Z.leb_le in C.
  rewrite Split_cut in E by (try discriminate; exact C).
  injection E as Ea Eb.
  destruct (Contains (drop (Z.to_nat (Index pattern "*" + len "*")) pattern)
                     "*") eqn:C2.
  - unfold Contains in C2. apply Z.leb_le in C2.
    rewrite Split_cut in Eb by (try discriminate; exact C2).
    injection Eb as _ Eb. now apply Split_nonempty in Eb.
  - rewrite Split_single in Eb by exact C2. injection Eb as Eb.
    rewrite <- Ea, <- Eb. now apply Index_split.
Qed.

Lemma only_stars_Contains pattern :
  only_stars pattern = true -> pattern <> "" -> Contains pattern "*" = true.
Proof.
  destruct pattern as [|c p]; [congruence|]. simpl. intros H _.
  apply andb_true_iff in H as [H _]. apply Ascii.eqb_eq in H. subst c.
  apply Contains_iff. now exists "", p.
Qed.

Lemma Split_star_cons pattern :
  Split (String "*" pattern) "*" = "" :: Split pattern "*".
Proof. apply (Split_app "*"%char "" pattern). reflexivity. Qed.

Lemma Split_first_nonempty c pattern :
  c <> "*"%char ->
  exists part parts, Split (String c pattern) "*" = part :: parts /\ part <> "".
Proof.
  intros N. destruct (Z.ltb_spec (Index (String c pattern) "*") 0) as [L|L].
  - exists (String c pattern), []. split; [now apply Split_absent | discriminate].
  - rewrite Split_cut by (try discriminate; exact L). eexists _, _.
    split; [reflexivity|]. rewrite Index_cons in *.
    destruct (Ascii.eqb_spec c "*") as [?|_]; [contradiction|].
    destruct (Z.ltb_spec (Index pattern "*") 0) as [M|M]; [lia|].
    replace (Z.to_nat (Index pattern "*" + 1))
      with (S (Z.to_nat (Index pattern "*"))) by lia.
    discriminate.
Qed.

Lemma all_empty_Split pattern :
  all_empty (Split pattern "*") = only_stars pattern.
Proof.
  induction pattern as [|c p IH]; [reflexivity|].
  cbn [only_stars]. destruct (Ascii.eqb_spec c "*") as [->|N].
  - rewrite Split_star_cons. simpl. exact IH.
  - destruct (Split_first_nonempty c p N) as (part & parts & -> & Np).
    simpl. apply String.eqb_neq in Np. now rewrite Np.
Qed.

Lemma scan_all_empty value parts : forall idx,
  all_empty parts = true -> scan value parts idx = Some true.
Proof.
  induction parts as [|part parts IH]; intros idx; [reflexivity|].
  simpl. intros H. apply andb_true_iff in H as [E H].
  unfold scan_step. rewrite E. now apply IH.
Qed.

Lemma scan_empty_value parts : scan "" parts 0 = Some (all_empty parts).
Proof.
  induction parts as [|part parts IH]; [reflexivity|].
  cbn [scan]. rewrite scan_step_cases by (unfold len; simpl; lia).
  simpl. destruct (String.eqb_spec part "") as [->|N]; [exact IH|].
  simpl. destruct (HasPrefix "" part) eqn:P; [|reflexivity].
  apply HasPrefix_iff in P as [z E]. destruct part; [congruence | discriminate].
Qed.

Lemma HasPrefix_of_empty a : HasPrefix "" a = (a =? "")%string.
Proof.
  destruct (String.eqb_spec a "") as [->|N]; [reflexivity|].
  destruct (HasPrefix "" a) eqn:P; [|reflexivity].
  apply HasPrefix_iff in P as [z E]. destruct a; [congruence | discriminate].
Qed.

Lemma HasSuffix_of_empty b : HasSuffix "" b = (b =? "")%string.
Proof.
  destruct (String.eqb_spec b "") as [->|N]; [reflexivity|].
  destruct (HasSuffix "" b) eqn:P; [|reflexivity].
  apply HasSuffix_iff in P as [x E].
  destruct x, b; try congruence; discriminate.
Qed.

(** What [matchPattern] says of a pattern with a [*], by its parts. *)
Lemma matchPattern_with_star pattern value :
  Contains pattern "*" = true ->
  matchPattern pattern value =
    match Split pattern "*" with
    | [p0; p1] =>
        if (p0 =? "")%string then Some (HasSuffix value p1)
        else if (p1 =? "")%string then Some (HasPrefix value p0)
        else scan value [p0; p1] 0
    | parts => scan value parts 0
    end.
Proof.
  intros C. destruct (String.eqb_spec pattern "*") as [->|N].
  - change (matchPattern "*" value) with (Some true).
    change (Split "*" "*") with [""; ""]. cbv iota.
    change ("" =? "")%string with true. cbv iota.
    rewrite (proj2 (HasSuffix_iff value "")); [reflexivity|].
    exists value. symmetry. apply app_empty_r.
  - unfold matchPattern. apply String.eqb_neq in N. rewrite N, C. simpl.
    now destruct (Split pattern "*") as [|p0 [|p1 [|p2 ps]]].
Qed.

Lemma matchPattern_no_star pattern value :
  Contains pattern "*" = false ->
  matchPattern pattern value = Some (pattern =? value)%string.
Proof.
  intros C. unfold matchPattern.
  destruct (String.eqb_spec pattern "*") as [->|N]; [discriminate C|].
  now rewrite C.
Qed.

End PatternParts.

(** ** [matchPattern]: what a pattern matches *)

(** X1: a pattern without [*] matches its own text and nothing else. *)
Theorem matchPattern_literal (pattern value : string) :
  Contains pattern "*" = false ->
  decides (matchPattern pattern value) (pattern = value).
Proof.
  intros C. rewrite matchPattern_no_star by exact C.
  apply decides_Some, String.eqb_eq.
Qed.

Lemma matchPattern_literal_witness :
  decides (matchPattern "apps/v1" "apps/v2") ("apps/v1" = "apps/v2").
Proof. apply matchPattern_literal. reflexivity. Defined.

(** X2: a non-empty pattern made of [*] only, however many, matches every
    value. *)
Theorem matchPattern_only_stars (pattern value : string) :
  only_stars pattern = true -> pattern <> "" ->
  matchPattern pattern value = Some true.
Proof.
  intros O N. rewrite matchPattern_with_star by now apply only_stars_Contains.
  rewrite <- all_empty_Split in O.
  destruct (Split pattern "*") as [|p0 [|p1 [|p2 ps]]];
    try now apply scan_all_empty.
  unfold all_empty in O. cbn [forallb] in O.
  apply andb_true_iff in O as [O0 O]. apply andb_true_iff in O as [O1 _].
  apply String.eqb_eq in O0, O1. subst p0 p1. cbn [String.eqb].
  rewrite (proj2 (HasSuffix_iff value "")); [reflexivity|].
  exists value. symmetry. apply app_empty_r.
Qed.

Lemma matchPattern_only_stars_witness :
  matchPattern "****" "apps/v1" = Some true.
Proof. apply matchPattern_only_stars; [reflexivity | discriminate]. Defined.

(** X3: for a pattern that goes to the scanning loop, the greedy scan
    succeeds exactly when the parts of the pattern can be placed in the
    value in their order without overlap, wherever: a search with
    backtracking would accept nothing more. *)
Theorem matchPattern_placement (pattern value : string) :
  Contains pattern "*" = true ->
  pattern <> "*" ->
  (forall a b, Split pattern "*" = [a; b] -> a <> "" /\ b <> "") ->
  decides (matchPattern pattern value) (embeds (Split pattern "*") value).
Proof.
  intros C N Two. rewrite matchPattern_general by assumption.
  apply scan_from_start.
Qed.

Lemma matchPattern_placement_witness :
  decides (matchPattern "a*aa*b" "aaab") (embeds (Split "a*aa*b" "*") "aaab").
Proof.
  apply matchPattern_placement.
  - reflexivity.
  - discriminate.
  - intros a b E. vm_compute in E. discriminate.
Defined.

(** X4: for a pattern that goes to the scanning loop, a value that matches
    still matches with anything put before it and after it; neither end
    of the value is tied to the pattern. *)
Theorem matchPattern_extension (pattern value before after : string) :
  Contains pattern "*" = true ->
  pattern <> "*" ->
  (forall a b, Split pattern "*" = [a; b] -> a <> "" /\ b <> "") ->
  matchPattern pattern value = Some true ->
  matchPattern pattern (before ++ value ++ after) = Some true.
Proof.
  intros C N Two. rewrite !matchPattern_general by assumption. intros M.
  destruct (scan_from_start value (Split pattern "*")) as (r & E & H).
  destruct (scan_from_start (before ++ value ++ after) (Split pattern "*"))
    as (r' & -> & H').
  f_equal. apply H'. apply embeds_prepend, embeds_extend, H. congruence.
Qed.

Lemma matchPattern_extension_witness :
  matchPattern "a*b*c" ("xx" ++ "a1b2c" ++ "yy") = Some true.
Proof.
  apply matchPattern_extension.
  - reflexivity.
  - discriminate.
  - intros a b E. vm_compute in E. discriminate.
  - reflexivity.
Defined.

(** X5: a second [*] lifts the anchor.  For [p] without [*], the patterns
    [p ++ "**"] and ["**" ++ p] match exactly the values in which [p]
    occurs somewhere (where [p ++ "*"] asks for a prefix and ["*" ++ p]
    for a suffix). *)
Theorem matchPattern_double_star (p value : string) :
  Contains p "*" = false ->
  decides (matchPattern (p ++ "**") value)
          (exists x z, value = x ++ p ++ z) /\
  decides (matchPattern ("**" ++ p) value)
          (exists x z, value = x ++ p ++ z).
Proof.
  intros C. split.
  - rewrite matchPattern_with_star
      by (apply Contains_iff; now exists p, "*").
    rewrite (Split_app "*"%char p "*" C).
    change (Split "*" "*") with [""; ""].
    destruct (scan_from_start value [p; ""; ""]) as (r & -> & H).
    exists r. split; [reflexivity|]. rewrite H. simpl. split.
    + intros (x & rest & E & _). now exists x, rest.
    + intros (x & z & E). exists x, z. split; [exact E|].
      exists "", z. split; [reflexivity|]. exists "", z. now split.
  - rewrite matchPattern_with_star
      by (apply Contains_iff; now exists "", ("*" ++ p)).
    change ("**" ++ p) with (String "*" (String "*" p)).
    rewrite !Split_star_cons, (Split_single "*" p C).
    destruct (scan_from_start value [""; ""; p]) as (r & -> & H).
    exists r. split; [reflexivity|]. rewrite H, !embeds_skip_empty. simpl.
    split.
    + intros (x & rest & E & _). now exists x, rest.
    + intros (x & z & E). now exists x, z.
Qed.

Lemma matchPattern_double_star_witness :
  decides (matchPattern ("apps" ++ "**") "my-apps/v1")
          (exists x z, "my-apps/v1" = x ++ "apps" ++ z) /\
  decides (matchPattern ("**" ++ "apps") "my-apps/v1")
          (exists x z, "my-apps/v1" = x ++ "apps" ++ z).
Proof. apply matchPattern_double_star. reflexivity. Defined.

(** X6: the empty value (the core API group) is matched by the empty
    pattern and by the patterns made of [*] only, and by no other. *)
Theorem matchPattern_empty_value (pattern : string) :
  matchPattern pattern "" = Some (only_stars pattern).
Proof.
  destruct (Contains pattern "*") eqn:C.
  - rewrite matchPattern_with_star by exact C. rewrite <- all_empty_Split.
    destruct (Split pattern "*") as [|p0 [|p1 [|p2 ps]]];
      try apply scan_empty_value.
    destruct (String.eqb_spec p0 "") as [->|N0].
    + rewrite HasSuffix_of_empty. simpl. now rewrite andb_true_r.
    + destruct (String.eqb_spec p1 "") as [->|N1].
      * rewrite HasPrefix_of_empty. simpl.
        apply String.eqb_neq in N0. now rewrite N0.
      * rewrite scan_empty_value. reflexivity.
  - rewrite matchPattern_no_star by exact C.
    f_equal. destruct pattern as [|c p]; [reflexivity|].
    simpl. destruct (Ascii.eqb_spec c "*") as [->|Nc]; [|reflexivity].
    exfalso. assert (Contains (String "*" p) "*" = true)
      by (apply Contains_iff; now exists "", p).
    congruence.
Qed.

(** X7: every pattern matches its own text. *)
Theorem matchPattern_self (pattern : string) :
  matchPattern pattern pattern = Some true.
Proof.
  pose proof (Split_embeds pattern) as E.
  destruct (Contains pattern "*") eqn:C.
  - rewrite matchPattern_with_star by exact C.
    assert (S : scan pattern (Split pattern "*") 0 = Some true).
    { destruct (scan_from_start pattern (Split pattern "*")) as (r & -> & H).
      f_equal. now apply H. }
    destruct (Split pattern "*") as [|p0 [|p1 [|p2 ps]]] eqn:Sp; try exact S.
    apply Split_two_join in Sp.
    destruct (p0 =? "")%string.
    + f_equal. apply HasSuffix_iff. exists (p0 ++ "*").
      now rewrite app_assoc_s.
    + destruct (p1 =? "")%string; [|exact S].
      f_equal. apply HasPrefix_iff. now exists ("*" ++ p1).
  - rewrite matchPattern_no_star by exact C. now rewrite String.eqb_refl.
Qed.

(** X8: whatever the pattern, a value that matches holds the parts of the
    pattern in their order without overlap; so it is at least as long as
    the pattern without its [*]. *)
Theorem matchPattern_places_parts (pattern value : string) :
  matchPattern pattern value = Some true ->
  embeds (Split pattern "*") value /\
  total_len (Split pattern "*") <= len value.
Proof.
  intros M.
  assert (E : embeds (Split pattern "*") value);
    [|split; [exact E | now apply embeds_total_len]].
  assert (S : scan value (Split pattern "*") 0 = Some true ->
              embeds (Split pattern "*") value).
  { destruct (scan_from_start value (Split pattern "*")) as (r & -> & H).
    intros [= ->]. now apply H. }
  destruct (Contains pattern "*") eqn:C.
  - rewrite matchPattern_with_star in M by exact C.
    destruct (Split pattern "*") as [|p0 [|p1 [|p2 ps]]]; try now apply S.
    destruct (String.eqb_spec p0 "") as [->|N0].
    + injection M as M. apply HasSuffix_iff in M as [x ->].
      exists "", (x ++ p1). split; [reflexivity|].
      exists x, "". split; [now rewrite app_empty_r | exact I].
    + destruct (String.eqb_spec p1 "") as [E1|N1]; [subst p1 | now apply S].
      injection M as M. apply HasPrefix_iff in M as [z ->].
      exists "", z. split; [reflexivity|]. exists "", z. now split.
  - rewrite matchPattern_no_star in M by exact C.
    rewrite (Split_single "*" pattern C).
    injection M as M. apply String.eqb_eq in M as ->.
    exists "", "". split; [now rewrite app_empty_r | exact I].
Qed.

Lemma matchPattern_places_parts_witness :
  embeds (Split "*/v1" "*") "apps/v1" /\
  total_len (Split "*/v1" "*") <= len "apps/v1".
Proof. apply matchPattern_places_parts. reflexivity. Defined.

(** ** Strings around one separator byte *)

Section SeparatorByte.

Variable c : ascii.

Lemma Contains_byte_cons d s :
  Contains (String d s) (String c "") =
  Ascii.eqb d c || Contains s (String c "").
Proof.
  unfold Contains. rewrite Index_cons.
  destruct (Ascii.eqb d c); [reflexivity|]. simpl.
  pose proof (Index_range s (String c "")) as R.
  destruct (Z.ltb_spec (Index s (String c "")) 0) as [L|L].
  - symmetry. apply Z.leb_gt. exact L.
  - transitivity true; [apply Z.leb_le; lia | symmetry; apply Z.leb_le; lia].
Qed.

Lemma Contains_byte_app x y :
  Contains (x ++ y) (String c "") =
  Contains x (String c "") || Contains y (String c "").
Proof.
  induction x as [|d x IH]; [reflexivity|].
  simpl String.append. rewrite !Contains_byte_cons, IH. apply orb_assoc.
Qed.

Lemma Contains_byte_here s : Contains (String c s) (String c "") = true.
Proof. now rewrite Contains_byte_cons, Ascii.eqb_refl. Qed.

(** The text before the first separator, and the text after the last one,
    are determined. *)
Lemma first_separator_unique x : forall y a b,
  x ++ String c a = y ++ String c b ->
  Contains x (String c "") = false -> Contains y (String c "") = false ->
  x = y /\ a = b.
Proof.
  induction x as [|d x IH]; intros [|e y] a b E Cx Cy; simpl in E.
  - injection E as <-. now split.
  - injection E as <- _. now rewrite Contains_byte_here in Cy.
  - injection E as -> _. now rewrite Contains_byte_here in Cx.
  - injection E as <- E. rewrite Contains_byte_cons in Cx, Cy.
    apply orb_false_iff in Cx as [_ Cx], Cy as [_ Cy].
    destruct (IH y a b E Cx Cy) as [-> ->]. now split.
Qed.

Lemma last_separator_unique x : forall y a b,
  x ++ String c a = y ++ String c b ->
  Contains a (String c "") = false -> Contains b (String c "") = false ->
  x = y /\ a = b.
Proof.
  induction x as [|d x IH]; intros [|e y] a b E Ca Cb; simpl in E.
  - injection E as <-. now split.
  - injection E as _ ->.
    rewrite Contains_byte_app, Contains_byte_here, orb_true_r in Ca.
    discriminate.
  - injection E as _ <-.
    rewrite Contains_byte_app, Contains_byte_here, orb_true_r in Cb.
    discriminate.
  - injection E as <- E. destruct (IH y a b E Ca Cb) as [-> ->]. now split.
Qed.

End SeparatorByte.

(** ** [matchResource]: lists, versions and the usual patterns *)

Section MatchResourceMore.

Context {ClusterResourceOperation LabelSelector : Type}.
Implicit Types cr : @ClusterResource ClusterResourceOperation LabelSelector.
Implicit Types operations : list ClusterResourceOperation.
Implicit Types selector : LabelSelector.

Lemma kindMatch_app gvk resources1 resources2 :
  kindMatch gvk (resources1 ++ resources2) =
  kindMatch gvk resources1 || kindMatch gvk resources2.
Proof.
  induction resources1 as [|r rs IH]; [reflexivity|]. simpl.
  now destruct ((r =? "*")%string || (r =? Kind gvk)%string).
Qed.

Lemma groupMatch_total gvk apiGroups :
  exists b, groupMatch gvk apiGroups = Some b.
Proof. destruct (groupMatch_decides gvk apiGroups) as (r & E & _). now exists r. Qed.

Lemma groupMatch_app gvk apiGroups1 apiGroups2 :
  groupMatch gvk (apiGroups1 ++ apiGroups2) =
  match groupMatch gvk apiGroups1 with
  | Some false => groupMatch gvk apiGroups2
  | result => result
  end.
Proof.
  induction apiGroups1 as [|g gs IH]; [reflexivity|]. simpl.
  destruct (g =? "*")%string; [reflexivity|].
  now destruct (matchPattern g (target gvk g)) as [[|]|].
Qed.

Lemma matchResource_gates gvk cr b :
  groupMatch gvk (APIGroups cr) = Some b ->
  matchResource gvk cr = Some (kindMatch gvk (Resources cr) && b).
Proof.
  intros G. unfold matchResource. rewrite G.
  now destruct (kindMatch gvk (Resources cr)).
Qed.

(** X9: a rule whose [APIGroups] (or whose [Resources]) is two lists put
    together matches exactly when the rule with one of the two lists
    does. *)
Theorem matchResource_concat gvk
  (apiGroups1 apiGroups2 resources1 resources2 : list string)
  operations selector :
  (exists b1 b2,
     matchResource gvk
       (Build_ClusterResource apiGroups1 resources1 operations selector)
       = Some b1 /\
     matchResource gvk
       (Build_ClusterResource apiGroups2 resources1 operations selector)
       = Some b2 /\
     matchResource gvk
       (Build_ClusterResource (apiGroups1 ++ apiGroups2) resources1
                              operations selector)
       = Some (b1 || b2)) /\
  (exists b1 b2,
     matchResource gvk
       (Build_ClusterResource apiGroups1 resources1 operations selector)
       = Some b1 /\
     matchResource gvk
       (Build_ClusterResource apiGroups1 resources2 operations selector)
       = Some b2 /\
     matchResource gvk
       (Build_ClusterResource apiGroups1 (resources1 ++ resources2)
                              operations selector)
       = Some (b1 || b2)).
Proof.
  destruct (groupMatch_total gvk apiGroups1) as [g1 G1].
  destruct (groupMatch_total gvk apiGroups2) as [g2 G2].
  split.
  - exists (kindMatch gvk resources1 && g1), (kindMatch gvk resources1 && g2).
    rewrite (matchResource_gates gvk _ g1) by exact G1.
    rewrite (matchResource_gates gvk _ g2) by exact G2.
    rewrite (matchResource_gates gvk _ (g1 || g2)).
    + simpl. now rewrite andb_orb_distrib_r.
    + simpl. rewrite groupMatch_app, G1. now destruct g1.
  - exists (kindMatch gvk resources1 && g1), (kindMatch gvk resources2 && g1).
    rewrite !(matchResource_gates gvk _ g1) by exact G1. simpl.
    now rewrite kindMatch_app, andb_orb_distrib_l.
Qed.

Lemma target_no_slash gvk g : Contains g "/" = false -> target gvk g = Group gvk.
Proof. unfold target. now intros ->. Qed.

Lemma groupMatch_same_group gvk1 gvk2 apiGroups :
  Group gvk1 = Group gvk2 ->
  Forall (fun g => Contains g "/" = false) apiGroups ->
  groupMatch gvk1 apiGroups = groupMatch gvk2 apiGroups.
Proof.
  intros E F. induction F as [|g gs C F IH]; [reflexivity|]. simpl.
  now rewrite !target_no_slash, E, IH by exact C.
Qed.

(** X10: a rule whose [APIGroups] entries hold no ["/"] does not look at
    the version: two coordinates of one group and one kind get the same
    answer. *)
Theorem matchResource_ignores_version gvk1 gvk2 cr :
  Group gvk1 = Group gvk2 -> Kind gvk1 = Kind gvk2 ->
  Forall (fun g => Contains g "/" = false) (APIGroups cr) ->
  matchResource gvk1 cr = matchResource gvk2 cr.
Proof.
  intros Eg Ek F. unfold matchResource.
  rewrite (groupMatch_same_group gvk1 gvk2 _ Eg F).
  assert (K : kindMatch gvk1 (Resources cr) = kindMatch gvk2 (Resources cr)).
  { induction (Resources cr) as [|r rs IH]; [reflexivity|]. simpl.
    now rewrite Ek, IH. }
  now rewrite K.
Qed.

(** X11: with [APIGroups] entries that hold neither [*] nor ["/"] the
    group gate is membership: the rule matches exactly when its
    [Resources] holds ["*"] or the kind, and its [APIGroups] holds the
    group (the empty string for the core group). *)
Theorem matchResource_plain_groups gvk cr :
  Forall (fun g => Contains g "*" = false /\ Contains g "/" = false)
         (APIGroups cr) ->
  decides (matchResource gvk cr)
          ((In "*" (Resources cr) \/ In (Kind gvk) (Resources cr)) /\
           In (Group gvk) (APIGroups cr)).
Proof.
  intros F. destruct (matchResource_decides gvk cr) as (r & E & H).
  exists r. split; [exact E|]. rewrite H. apply and_iff_compat_l.
  rewrite Forall_forall in F. split.
  - intros (g & I & M). destruct (F g I) as [Cs Cl].
    destruct M as [->|M]; [discriminate Cs|].
    rewrite target_no_slash, matchPattern_no_star in M by assumption.
    injection M as M. apply String.eqb_eq in M. now subst g.
  - intros I. exists (Group gvk). split; [exact I|]. right.
    destruct (F _ I) as [Cs Cl].
    rewrite target_no_slash, matchPattern_no_star by assumption.
    now rewrite String.eqb_refl.
Qed.

End MatchResourceMore.

Lemma matchResource_ignores_version_witness :
  matchResource gvkAppsV1Deploy (rule ["Deployment"] ["app*"; "batch"]) =
  matchResource gvkAppsV2Deploy (rule ["Deployment"] ["app*"; "batch"]).
Proof.
  apply matchResource_ignores_version.
  - reflexivity.
  - reflexivity.
  - repeat constructor.
Defined.

Lemma matchResource_plain_groups_witness :
  decides (matchResource gvkCoreV1NS (rule ["Namespace"] ["apps"; ""]))
          ((In "*" ["Namespace"] \/ In "Namespace" ["Namespace"]) /\
           In "" ["apps"; ""]).
Proof.
  apply (matchResource_plain_groups gvkCoreV1NS
           (rule ["Namespace"] ["apps"; ""])).
  repeat constructor.
Defined.

Section GroupVersionPatterns.

Context {ClusterResourceOperation LabelSelector : Type}.
Implicit Types operations : list ClusterResourceOperation.
Implicit Types selector : LabelSelector.

Lemma matchPattern_group_slash_star G value :
  Contains G "*" = false ->
  matchPattern (G ++ "/*") value = Some (HasPrefix value (G ++ "/")).
Proof.
  intros C.
  assert (S : Split (G ++ "/*") "*" = [G ++ "/"; ""]).
  { change (G ++ "/*") with (G ++ "/" ++ "*"). rewrite <- app_assoc_s.
    apply Split_trailing. now rewrite Contains_byte_app, C. }
  rewrite (matchPattern_two_parts _ _ _ _ S).
  now destruct G.
Qed.

Lemma matchPattern_star_slash_version V value :
  Contains V "*" = false ->
  matchPattern ("*/" ++ V) value = Some (HasSuffix value ("/" ++ V)).
Proof.
  intros C.
  assert (S : Split ("*/" ++ V) "*" = [""; "/" ++ V]).
  { apply (Split_leading "*"%char ("/" ++ V)).
    change ("/" ++ V) with (String "/" V).
    now rewrite Contains_byte_cons, C. }
  now rewrite (matchPattern_two_parts _ _ _ _ S).
Qed.

Lemma single_entry_decides gvk (entry : string) resources operations selector
      (P : Prop) :
  entry <> "*" ->
  decides (matchPattern entry (target gvk entry)) P ->
  decides (matchResource gvk
             (Build_ClusterResource [entry] resources operations selector))
          ((In "*" resources \/ In (Kind gvk) resources) /\ P).
Proof.
  intros N (m & M & HP).
  destruct (matchResource_decides gvk
              (Build_ClusterResource [entry] resources operations selector))
    as (r & E & H).
  exists r. split; [exact E|]. rewrite H. apply and_iff_compat_l.
  cbn [APIGroups]. split.
  - intros (g & [<-|[]] & [?|T]); [contradiction|].
    apply HP. congruence.
  - intros HPp. exists entry. split; [now left|]. right.
    apply HP in HPp. now subst m.
Qed.

(** X12: the entry [G ++ "/*"], with [G] free of [*] and ["/"], is group
    [G] in any version: for a coordinate whose group holds no ["/"], the
    rule matches exactly when its [Resources] holds ["*"] or the kind,
    and the group is [G]. *)
Theorem matchResource_group_any_version
  gvk (G : string) (resources : list string) operations selector :
  Contains G "*" = false -> Contains G "/" = false ->
  Contains (Group gvk) "/" = false ->
  decides (matchResource gvk
             (Build_ClusterResource [G ++ "/*"] resources operations
                                    selector))
          ((In "*" resources \/ In (Kind gvk) resources) /\ Group gvk = G).
Proof.
  intros Cs Cl Cg.
  assert (Sl : Contains (G ++ "/*") "/" = true)
    by (rewrite Contains_byte_app; apply orb_true_r).
  apply single_entry_decides.
  - intros E. rewrite E in Sl. discriminate.
  - unfold target. rewrite Sl, matchPattern_group_slash_star by exact Cs.
    apply decides_Some. rewrite HasPrefix_iff. split.
    + intros [z E]. rewrite app_assoc_s in E.
      now apply (first_separator_unique "/"%char) in E.
    + intros <-. exists (Version gvk). now rewrite app_assoc_s.
Qed.

(** X13: the entry ["*/" ++ V], with [V] free of [*] and ["/"], is
    version [V] in any group: for a coordinate whose version holds no
    ["/"], the rule matches exactly when its [Resources] holds ["*"] or
    the kind, and the version is [V]. *)
Theorem matchResource_any_group_version
  gvk (V : string) (resources : list string) operations selector :
  Contains V "*" = false -> Contains V "/" = false ->
  Contains (Version gvk) "/" = false ->
  decides (matchResource gvk
             (Build_ClusterResource ["*/" ++ V] resources operations
                                    selector))
          ((In "*" resources \/ In (Kind gvk) resources) /\ Version gvk = V).
Proof.
  intros Cs Cl Cv.
  apply single_entry_decides.
  - discriminate.
  - unfold target. change (Contains ("*/" ++ V) "/")
      with (Contains (String "*" (String "/" V)) "/").
    rewrite Contains_byte_cons, Contains_byte_here, orb_true_r.
    rewrite matchPattern_star_slash_version by exact Cs.
    apply decides_Some. rewrite HasSuffix_iff. split.
    + intros [x E].
      now apply (last_separator_unique "/"%char) in E.
    + intros <-. now exists (Group gvk).
Qed.

End GroupVersionPatterns.

Lemma matchResource_group_any_version_witness :
  decides (matchResource gvkAppsV2Deploy
             (Build_ClusterResource ["apps" ++ "/*"] ["Deployment"]
                                    (@nil unit) tt))
          ((In "*" ["Deployment"] \/ In "Deployment" ["Deployment"]) /\
           "apps" = "apps").
Proof.
  apply (matchResource_group_any_version gvkAppsV2Deploy "apps");
    reflexivity.
Defined.

Lemma matchResource_any_group_version_witness :
  decides (matchResource gvkAppsV2Deploy
             (Build_ClusterResource ["*/" ++ "v1"] ["Deployment"]
                                    (@nil unit) tt))
          ((In "*" ["Deployment"] \/ In "Deployment" ["Deployment"]) /\
           "v2" = "v1").
Proof.
  apply (matchResource_any_group_version gvkAppsV2Deploy "v1");
    reflexivity.
Defined.

(** ** [GetClusterScopeRequirements]: what the results hold *)

Section AggregateMore.

Context {ClusterResourceOperation LabelSelector Selector Requirement error
         : Type}.
Variable LabelSelectorAsSelector : LabelSelector -> Selector + error.
Variable Requirements : Selector -> list Requirement * bool.
Variable gvk : GroupVersionKind.

Implicit Types cr : @ClusterResource ClusterResourceOperation LabelSelector.
Implicit Types pt : @ProxyTenant ClusterResourceOperation LabelSelector.
Implicit Types tenants
  : list (@ProxyTenant ClusterResourceOperation LabelSelector).

Lemma In_rule_operations cr op :
  In op (rule_operations gvk cr) <->
  matchResource gvk cr = Some true /\ In op (Operations cr).
Proof.
  unfold rule_operations.
  destruct (matchResource gvk cr) as [[|]|]; simpl; split;
    try tauto; now intros [? _].
Qed.

Lemma In_rule_requirements cr req :
  In req (rule_requirements LabelSelectorAsSelector Requirements gvk cr) <->
  matchResource gvk cr = Some true /\
  exists selector reqs,
    LabelSelectorAsSelector (Selector_ cr) = inl selector /\
    Requirements selector = (reqs, true) /\ In req reqs.
Proof.
  unfold rule_requirements.
  destruct (matchResource gvk cr) as [[|]|]; simpl;
    try (split; [tauto | now intros [? _]]).
  destruct (LabelSelectorAsSelector (Selector_ cr)) as [selector|err].
  - destruct (Requirements selector) as [reqs [|]] eqn:R; simpl; split.
    + intros I. split; [reflexivity|]. now exists selector, reqs.
    + intros (_ & s & rs & [= <-] & R' & I). rewrite R in R'.
      now injection R' as <-.
    + tauto.
    + intros (_ & s & rs & [= <-] & R' & _). rewrite R in R'. discriminate.
  - simpl. split; [tauto|]. now intros (_ & s & rs & E & _).
Qed.

(** X14: an operation is among the returned operations exactly when some
    rule of some tenant matches the coordinate and lists it. *)
Theorem aggregate_operations_iff tenants (op : ClusterResourceOperation) :
  exists ops reqs,
    GetClusterScopeRequirements LabelSelectorAsSelector Requirements gvk
      tenants = Some (mk_slice ops, mk_slice reqs) /\
    (In op ops <->
     exists pt cr, In pt tenants /\ In cr (ClusterResources pt) /\
                   matchResource gvk cr = Some true /\
                   In op (Operations cr)).
Proof.
  rewrite aggregate_flat. eexists _, _. split; [reflexivity|].
  rewrite in_flat_map. unfold tenant_operations. split.
  - intros (pt & Ip & I). apply in_flat_map in I as (cr & Ic & I).
    apply In_rule_operations in I as [M I]. now exists pt, cr.
  - intros (pt & cr & Ip & Ic & M & I). exists pt. split; [exact Ip|].
    apply in_flat_map. exists cr. split; [exact Ic|].
    now apply In_rule_operations.
Qed.

(** X15: a requirement is among the returned requirements exactly when
    some rule of some tenant matches the coordinate, its selector converts
    to a selectable selector, and the requirement is one of that
    selector's. *)
Theorem aggregate_requirements_iff tenants (req : Requirement) :
  exists ops reqs,
    GetClusterScopeRequirements LabelSelectorAsSelector Requirements gvk
      tenants = Some (mk_slice ops, mk_slice reqs) /\
    (In req reqs <->
     exists pt cr selector rs,
       In pt tenants /\ In cr (ClusterResources pt) /\
       matchResource gvk cr = Some true /\
       LabelSelectorAsSelector (Selector_ cr) = inl selector /\
       Requirements selector = (rs, true) /\ In req rs).
Proof.
  rewrite aggregate_flat. eexists _, _. split; [reflexivity|].
  rewrite in_flat_map. unfold tenant_requirements. split.
  - intros (pt & Ip & I). apply in_flat_map in I as (cr & Ic & I).
    apply In_rule_requirements in I as (M & s & rs & E & R & I).
    now exists pt, cr, s, rs.
  - intros (pt & cr & s & rs & Ip & Ic & M & E & R & I).
    exists pt. split; [exact Ip|].
    apply in_flat_map. exists cr. split; [exact Ic|].
    apply In_rule_requirements. split; [exact M|]. now exists s, rs.
Qed.

(** X16: the returned operations do not depend on the selectors: with any
    other conversion and any other decomposition of selectors the
    operations are the same (a rule whose selector is malformed grants
    what it grants with a good one). *)
Theorem aggregate_operations_whatever_selectors
  (LabelSelectorAsSelector' : LabelSelector -> Selector + error)
  (Requirements' : Selector -> list Requirement * bool) tenants :
  exists ops reqs reqs',
    GetClusterScopeRequirements LabelSelectorAsSelector Requirements gvk
      tenants = Some (mk_slice ops, reqs) /\
    GetClusterScopeRequirements LabelSelectorAsSelector' Requirements' gvk
      tenants = Some (mk_slice ops, reqs').
Proof. rewrite !aggregate_flat. now eexists _, _, _. Qed.

Lemma flat_map_flat_map {X Y Z} (f : X -> list Y) (g : Y -> list Z) l :
  flat_map g (flat_map f l) = flat_map (fun x => flat_map g (f x)) l.
Proof.
  induction l as [|x l IH]; [reflexivity|]. simpl.
  now rewrite flat_map_app, IH.
Qed.

(** X17: the borders between tenants play no part: the results are those
    for one tenant that has all the rules, in their order. *)
Theorem aggregate_merged tenants :
  GetClusterScopeRequirements LabelSelectorAsSelector Requirements gvk
    tenants =
  GetClusterScopeRequirements LabelSelectorAsSelector Requirements gvk
    [merged tenants].
Proof.
  rewrite !aggregate_flat. cbn [flat_map]. rewrite !app_nil_r.
  unfold tenant_operations, tenant_requirements, merged.
  cbn [ClusterResources]. now rewrite !flat_map_flat_map.
Qed.

(** X18: the order of the tenants decides the order of the results and
    nothing else: for the tenants in another order, each result is a
    permutation of what it was. *)
Theorem aggregate_permutation tenants tenants' :
  Permutation tenants tenants' ->
  exists ops reqs ops' reqs',
    GetClusterScopeRequirements LabelSelectorAsSelector Requirements gvk
      tenants = Some (mk_slice ops, mk_slice reqs) /\
    GetClusterScopeRequirements LabelSelectorAsSelector Requirements gvk
      tenants' = Some (mk_slice ops', mk_slice reqs') /\
    Permutation ops ops' /\ Permutation reqs reqs'.
Proof.
  intros P. rewrite !aggregate_flat. eexists _, _, _, _.
  split; [reflexivity|]. split; [reflexivity|].
  split; now apply Permutation_flat_map.
Qed.

Lemma flat_map_filter_nil {X Y} (f : X -> list Y) (keep : X -> bool) l :
  (forall x, keep x = false -> f x = []) ->
  flat_map f (filter keep l) = flat_map f l.
Proof.
  intros H. induction l as [|x l IH]; [reflexivity|]. simpl.
  destruct (keep x) eqn:K; simpl; [now rewrite IH|].
  now rewrite (H x K), IH.
Qed.

(** X19: the rules that do not match the coordinate count for nothing:
    the results are those for the tenants with these rules taken out. *)
Theorem aggregate_matching_rules tenants :
  GetClusterScopeRequirements LabelSelectorAsSelector Requirements gvk
    tenants =
  GetClusterScopeRequirements LabelSelectorAsSelector Requirements gvk
    (map (matching_rules gvk) tenants).
Proof.
  rewrite !aggregate_flat. f_equal.
  f_equal; f_equal; rewrite flat_map_concat_map, (flat_map_concat_map _ (map _ _)),
    map_map; f_equal; apply map_ext; intros pt;
    unfold tenant_operations, tenant_requirements, matching_rules;
    cbn [ClusterResources]; symmetry; apply flat_map_filter_nil;
    intros cr; unfold rule_matches, rule_operations, rule_requirements;
    now destruct (matchResource gvk cr) as [[|]|].
Qed.

End AggregateMore.

Lemma aggregate_permutation_witness :
  exists ops reqs ops' reqs',
    GetClusterScopeRequirements test_convert test_requirements
      gvkAppsV1Deploy [tenantA; tenantB]
      = Some (mk_slice ops, mk_slice reqs) /\
    GetClusterScopeRequirements test_convert test_requirements
      gvkAppsV1Deploy [tenantB; tenantA]
      = Some (mk_slice ops', mk_slice reqs') /\
    Permutation ops ops' /\ Permutation reqs reqs'.
Proof.
  apply (aggregate_permutation test_convert test_requirements
           gvkAppsV1Deploy [tenantA; tenantB] [tenantB; tenantA]).
  apply perm_swap.
Defined.

(** ** [LoggerMiddleware]: several loggers, and a silent one *)

Section LoggerMore.

Import Middleware.

Context {ResponseWriter URL Header Cookie Values Logger W : Type}.
Context {net : NetHTTP URL Header Cookie Values}.
Context {logr : Logr Header Cookie Values Logger W}.

Implicit Types next : Handler ResponseWriter URL Header W.
Implicit Types logs : list Logger.

Lemma LoggerMiddleware_observed_step (log : Logger)
  (h : Handler ResponseWriter URL Header
         (observed ResponseWriter URL Header Cookie Values Logger W))
  (w : ResponseWriter) (r : Request URL Header) (world : W)
  (journal : list (call ResponseWriter URL Header Cookie Values Logger)) :
  LoggerMiddleware (L := spy_logr logr) log h w r (world, journal) =
  h w r (Info (V log 10) "HTTP details" (details r) world,
         (journal ++ [Logged (V log 10) "HTTP details" (details r)])%list).
Proof. reflexivity. Qed.

Lemma served_count_app (j1 j2 : list (call ResponseWriter URL Header Cookie
                                        Values Logger)) :
  served_count (j1 ++ j2) = (served_count j1 + served_count j2)%nat.
Proof. unfold served_count. now rewrite filter_app, length_app. Qed.

(** X20: handlers of [LoggerMiddleware] put one around the other, for the
    loggers [logs] from the outermost on, log once each in that order and
    then call the innermost handler once, with the writer and the request
    the outermost was called with. *)
Theorem LoggerMiddleware_stacked logs next
  (w : ResponseWriter) (r : Request URL Header) (world : W)
  (journal : list (call ResponseWriter URL Header Cookie Values Logger)) :
  let observed :=
    fold_right (fun log h => LoggerMiddleware (L := spy_logr logr) log h)
               (spy next) logs w r (world, journal)
  in
  fst observed =
    fold_right (fun log h => LoggerMiddleware log h) next logs w r world /\
  snd observed =
    (journal
       ++ map (fun log => Logged (V log 10) "HTTP details" (details r)) logs
       ++ [Served w r])%list /\
  served_count (snd observed) = S (served_count journal).
Proof.
  cbv zeta. revert world journal.
  induction logs as [|log logs IH]; intros world journal.
  - cbn [fold_right map]. unfold spy. cbn [fst snd app].
    split; [reflexivity|]. split; [reflexivity|].
    rewrite served_count_app. cbn. lia.
  - cbn [fold_right map]. rewrite LoggerMiddleware_observed_step.
    destruct (IH (Info (V log 10) "HTTP details" (details r) world)
                 (journal ++ [Logged (V log 10) "HTTP details" (details r)])%list)
      as (I1 & I2 & I3).
    rewrite I3, I1, I2, served_count_app, <- app_assoc.
    split; [reflexivity|]. split; [reflexivity|]. cbn. lia.
Qed.

(** X21: with a logger whose [Info] leaves the world as it is (one that
    is switched off at this verbosity), the handlers of [LoggerMiddleware],
    one or several around [next], do what [next] does. *)
Theorem LoggerMiddleware_silent logs next
  (w : ResponseWriter) (r : Request URL Header) (world : W) :
  (forall l msg kvs world', Info l msg kvs world' = world') ->
  fold_right (fun log h => LoggerMiddleware log h) next logs w r world
  = next w r world.
Proof.
  intros Silent. induction logs as [|log logs IH]; [reflexivity|].
  cbn [fold_right]. unfold LoggerMiddleware at 1, ServeHTTP.
  now rewrite Silent.
Qed.

End LoggerMore.

Lemma LoggerMiddleware_silent_witness :
  Middleware.LoggerMiddleware (N := test_net) (L := silent_logr) 0
    (Middleware.LoggerMiddleware (N := test_net) (L := silent_logr) 1
       test_handler)
    tt test_request []
  = test_handler tt test_request [].
Proof.
  apply (LoggerMiddleware_silent (net := test_net) (logr := silent_logr)
           [0; 1] test_handler tt test_request []).
  reflexivity.
Defined.
